(** * Filter translation of haystack's document stores

    Shallow embedding of [haystack/document_stores/filter_utils.py]: the
    parser of nested-dictionary filters, the inversion transform, and the
    Elasticsearch and Weaviate emitters, followed by the properties that the
    specification states about them. *)

From Stdlib Require Import List String ZArith Bool Lia Permutation PrimFloat.
Import ListNotations.
Local Open Scope string_scope.
Local Open Scope list_scope.

Set Implicit Arguments.
Set Warnings "-register-all".

(** ** Python values *)

(** The filters handed to [parse] and the query documents that the emitters
    return are plain Python data.  A [dict] keeps its items in insertion
    order, and both the parser (one condition per item, in iteration order)
    and the range merge (position of the appended clauses) depend on that
    order, so a [dict] is an association list. *)
Inductive pyval : Type :=
| PNone
| PBool (b : bool)
| PInt (z : Z)
| PFloat (x : float)
| PStr (s : string)
| PList (l : list pyval)
| PDict (d : list (string * pyval)).

Definition pydict : Type := list (string * pyval).

(** [isinstance(value, list)] *)
Definition isinstance_list (v : pyval) : bool :=
  match v with PList _ => true | _ => false end.

(** [isinstance(value, int)]: in Python [bool] is a subclass of [int], so the
    test also holds of [True] and [False]. *)
Definition isinstance_int (v : pyval) : bool :=
  match v with PInt _ | PBool _ => true | _ => false end.

(** [isinstance(value, float)] *)
Definition isinstance_float (v : pyval) : bool :=
  match v with PFloat _ => true | _ => false end.

(** [isinstance(value, bool)] *)
Definition isinstance_bool (v : pyval) : bool :=
  match v with PBool _ => true | _ => false end.

(** ** Dictionaries *)

(** [key in d] *)
Fixpoint dict_mem (key : string) (d : pydict) : bool :=
  match d with
  | [] => false
  | (k, _) :: r => if String.eqb k key then true else dict_mem key r
  end.

(** [d[key]] on a key that may be absent *)
Fixpoint dict_get (key : string) (d : pydict) : option pyval :=
  match d with
  | [] => None
  | (k, v) :: r => if String.eqb k key then Some v else dict_get key r
  end.

(** ** Exceptions *)

Inductive exn : Type :=
| AssertionError
| ValueError
| IndexError
| KeyError
| AttributeError
| TypeError
| RecursionError.

Inductive result (A : Type) : Type :=
| Ok (a : A)
| Raise (e : exn).
Arguments Ok {A} a.
Arguments Raise {A} e.

Definition bind {A B : Type} (m : result A) (f : A -> result B) : result B :=
  match m with
  | Ok a => f a
  | Raise e => Raise e
  end.

Notation "x <- m ;; k" := (bind m (fun x => k))
  (at level 61, m at next level, right associativity).
Notation "' p <- m ;; k" := (bind m (fun x => let p := x in k))
  (at level 61, p pattern, m at next level, right associativity).

(** [assert c] *)
Definition py_assert (c : bool) : result unit :=
  if c then Ok tt else Raise AssertionError.

Section Traverse.
Variables A B : Type.
Variable f : A -> result B.

(** A list comprehension [[f(x) for x in l]]: the elements are evaluated in
    order and the first exception leaves the comprehension. *)
Fixpoint mapM (l : list A) : result (list B) :=
  match l with
  | [] => Ok []
  | a :: r => b <- f a ;; bs <- mapM r ;; Ok (b :: bs)
  end.
End Traverse.

(** ** The filter classes *)

(** The subclasses of [LogicalFilterClause]. *)
Inductive LogicalFilterClause : Type :=
| NotOperation
| AndOperation
| OrOperation.

(** The subclasses of [ComparisonOperation]. *)
Inductive ComparisonOperation : Type :=
| EqOperation
| InOperation
| NeOperation
| NinOperation
| GtOperation
| GteOperation
| LtOperation
| LteOperation.

(** An instance: its class and the attributes that the [__init__] of its
    base class stores ([conditions], or [field_name] and
    [comparison_value]). *)
Inductive clause : Type :=
| Logical (cls : LogicalFilterClause) (conditions : list clause)
| Comparison (cls : ComparisonOperation) (field_name : string)
    (comparison_value : pyval).

(** [ComparisonOperation.__init__]: stores its two arguments and checks
    nothing, whatever the subclass.  The constructor calls of [parse] and
    [invert] below are therefore written with [Comparison] itself. *)
Definition ComparisonOperation_init (cls : ComparisonOperation)
  (field_name : string) (comparison_value : pyval) : result clause :=
  Ok (Comparison cls field_name comparison_value).

(** ** Parsing *)

(** The class that [ComparisonOperation.parse] instantiates for a comparison
    operator key; [None] for a key that none of its branches tests. *)
Definition comparison_class (comparison_operation : string)
  : option ComparisonOperation :=
  if comparison_operation =? "$eq" then Some EqOperation
  else if comparison_operation =? "$in" then Some InOperation
  else if comparison_operation =? "$ne" then Some NeOperation
  else if comparison_operation =? "$nin" then Some NinOperation
  else if comparison_operation =? "$gt" then Some GtOperation
  else if comparison_operation =? "$gte" then Some GteOperation
  else if comparison_operation =? "$lt" then Some LtOperation
  else if comparison_operation =? "$lte" then Some LteOperation
  else None.

(** The loop of [ComparisonOperation.parse] over [comparison_clause.items()]:
    one operation appended per recognised key, nothing for the others. *)
Fixpoint parse_comparison_items (field_name : string) (items : pydict)
  : list clause :=
  match items with
  | [] => []
  | (comparison_operation, comparison_value) :: r =>
      match comparison_class comparison_operation with
      | Some cls =>
          Comparison cls field_name comparison_value
          :: parse_comparison_items field_name r
      | None => parse_comparison_items field_name r
      end
  end.

(** [ComparisonOperation.parse] *)
Definition ComparisonOperation_parse (field_name : string)
  (comparison_clause : pyval) : list clause :=
  match comparison_clause with
  | PDict items => parse_comparison_items field_name items
  | PList _ => [Comparison InOperation field_name comparison_clause]
  | _ => [Comparison EqOperation field_name comparison_clause]
  end.

Section ParseLoops.
(** The recursive calls [NotOperation.parse], [AndOperation.parse] and
    [OrOperation.parse]. *)
Variable parse_cls : option LogicalFilterClause -> pyval -> result clause.

(** [for key, value in item.items()]: the conditions that the keys of one
    mapping add, in order. *)
Fixpoint parse_item (item : pydict) : result (list clause) :=
  match item with
  | [] => Ok []
  | (key, value) :: r =>
      added <-
        (if key =? "$not" then
           c <- parse_cls (Some NotOperation) value ;; Ok [c]
         else if key =? "$and" then
           c <- parse_cls (Some AndOperation) value ;; Ok [c]
         else if key =? "$or" then
           c <- parse_cls (Some OrOperation) value ;; Ok [c]
         else Ok (ComparisonOperation_parse key value)) ;;
      rest <- parse_item r ;;
      Ok (added ++ rest)
  end.

(** [for item in filter_term] over the elements of a list: [item.items()]
    exists on a [dict] only. *)
Fixpoint parse_items (filter_term : list pyval) : result (list clause) :=
  match filter_term with
  | [] => Ok []
  | PDict item :: r =>
      added <- parse_item item ;;
      rest <- parse_items r ;;
      Ok (added ++ rest)
  | _ :: _ => Raise AttributeError
  end.
End ParseLoops.

(** What [parse] returns for the collected [conditions]: [cls] is [None] when
    the method is called on [LogicalFilterClause] itself. *)
Definition parse_return (cls : option LogicalFilterClause)
  (conditions : list clause) : clause :=
  match cls with
  | None =>
      match conditions with
      | [c] => c
      | _ => Logical AndOperation conditions
      end
  | Some k => Logical k conditions
  end.

(** [LogicalFilterClause.parse], a class method inherited by the three
    subclasses.  A [dict] is taken as the one-element list of itself; any
    other argument is iterated as it is: a list by its elements, a string by
    its characters (which have no [items]), and the remaining values are not
    iterable. *)
Fixpoint parse_cls (cls : option LogicalFilterClause) (filter_term : pyval)
  {struct filter_term} : result clause :=
  conditions <-
    match filter_term with
    | PDict item => parse_item parse_cls item
    | PList l => parse_items parse_cls l
    | PStr s =>
        match s with
        | EmptyString => Ok []
        | String _ _ => Raise AttributeError
        end
    | PNone | PBool _ | PInt _ | PFloat _ => Raise TypeError
    end ;;
  Ok (parse_return cls conditions).

(** [LogicalFilterClause.parse(filter_term)] *)
Definition parse (filter_term : pyval) : result clause :=
  parse_cls None filter_term.

(** ** Inversion *)

(** The [invert] methods of the eleven classes. *)
Fixpoint invert (c : clause) : clause :=
  match c with
  | Logical NotOperation conditions =>
      Logical OrOperation (map invert conditions)
  | Logical AndOperation conditions =>
      Logical OrOperation (map invert conditions)
  | Logical OrOperation conditions =>
      Logical AndOperation (map invert conditions)
  | Comparison EqOperation f v => Comparison NeOperation f v
  | Comparison InOperation f v => Comparison NinOperation f v
  | Comparison NeOperation f v => Comparison EqOperation f v
  | Comparison NinOperation f v => Comparison InOperation f v
  | Comparison GtOperation f v => Comparison LteOperation f v
  | Comparison GteOperation f v => Comparison LtOperation f v
  | Comparison LtOperation f v => Comparison GteOperation f v
  | Comparison LteOperation f v => Comparison GtOperation f v
  end.

(** ** Elasticsearch *)

(** [list(d.keys())[0]] *)
Definition first_key (d : pyval) : result string :=
  match d with
  | PDict [] => Raise IndexError
  | PDict ((k, _) :: _) => Ok k
  | _ => Raise AttributeError
  end.

(** [d[key]] *)
Definition subscript (d : pyval) (key : string) : result pyval :=
  match d with
  | PDict items =>
      match dict_get key items with
      | Some v => Ok v
      | None => Raise KeyError
      end
  | _ => Raise TypeError
  end.

(** [d[key] = value] on a plain [dict]: a key that is present keeps its
    place, a new key goes last. *)
Fixpoint dict_set (key : string) (value : pyval) (d : pydict) : pydict :=
  match d with
  | [] => [(key, value)]
  | (k, v) :: r =>
      if k =? key then (k, value) :: r else (k, v) :: dict_set key value r
  end.

(** [d[field_name][operation] = comparison_value] on the two-level
    [nested_defaultdict] of the range merge: a missing [field_name] is
    created, last, with an empty inner dictionary. *)
Fixpoint nested_set (field_name operation : string) (comparison_value : pyval)
  (d : list (string * pydict)) : list (string * pydict) :=
  match d with
  | [] => [(field_name, [(operation, comparison_value)])]
  | (k, ops) :: r =>
      if k =? field_name then (k, dict_set operation comparison_value ops) :: r
      else (k, ops) :: nested_set field_name operation comparison_value r
  end.

(** ["range" in condition] *)
Definition has_range (condition : pydict) : bool := dict_mem "range" condition.

(** The first loop of [_merge_es_range_queries], from the dictionary
    collected so far. *)
Fixpoint merge_range_conditions (range_conditions : list pyval)
  (range_conditions_dict : list (string * pydict))
  : result (list (string * pydict)) :=
  match range_conditions with
  | [] => Ok range_conditions_dict
  | condition :: r =>
      field_name <- first_key condition ;;
      inner <- subscript condition field_name ;;
      operation <- first_key inner ;;
      comparison_value <- subscript inner operation ;;
      merge_range_conditions r
        (nested_set field_name operation comparison_value
           range_conditions_dict)
  end.

(** The clause [{"range": {field_name: comparison_operations}}] that the
    second loop appends for one item of the dictionary. *)
Definition range_clause (item : string * pydict) : pydict :=
  [("range", PDict [(fst item, PDict (snd item))])].

(** [LogicalFilterClause._merge_es_range_queries] *)
Definition _merge_es_range_queries (conditions : list pydict)
  : result (list pydict) :=
  range_conditions <-
    mapM (fun cond => subscript (PDict cond) "range")
      (filter has_range conditions) ;;
  match range_conditions with
  | [] => Ok conditions
  | _ :: _ =>
      let conditions :=
        filter (fun condition => negb (has_range condition)) conditions in
      range_conditions_dict <- merge_range_conditions range_conditions [] ;;
      Ok (conditions ++ map range_clause range_conditions_dict)
  end.

(** The key of the boolean query that each logical class emits. *)
Definition es_bool_key (cls : LogicalFilterClause) : string :=
  match cls with
  | NotOperation => "must_not"
  | AndOperation => "must"
  | OrOperation => "should"
  end.

(** The [convert_to_elasticsearch] methods. *)
Fixpoint convert_to_elasticsearch (c : clause) : result pydict :=
  match c with
  | Logical cls conditions =>
      conditions <- mapM convert_to_elasticsearch conditions ;;
      conditions <- _merge_es_range_queries conditions ;;
      Ok [("bool", PDict [(es_bool_key cls, PList (map PDict conditions))])]
  | Comparison EqOperation f v =>
      _ <- py_assert (negb (isinstance_list v)) ;;
      Ok [("term", PDict [(f, v)])]
  | Comparison InOperation f v =>
      _ <- py_assert (isinstance_list v) ;;
      Ok [("terms", PDict [(f, v)])]
  | Comparison NeOperation f v =>
      _ <- py_assert (negb (isinstance_list v)) ;;
      Ok [("bool", PDict [("must_not", PDict [("term", PDict [(f, v)])])])]
  | Comparison NinOperation f v =>
      _ <- py_assert (isinstance_list v) ;;
      Ok [("bool", PDict [("must_not", PDict [("terms", PDict [(f, v)])])])]
  | Comparison GtOperation f v =>
      _ <- py_assert (negb (isinstance_list v)) ;;
      Ok [("range", PDict [(f, PDict [("gt", v)])])]
  | Comparison GteOperation f v =>
      _ <- py_assert (negb (isinstance_list v)) ;;
      Ok [("range", PDict [(f, PDict [("gte", v)])])]
  | Comparison LtOperation f v =>
      _ <- py_assert (negb (isinstance_list v)) ;;
      Ok [("range", PDict [(f, PDict [("lt", v)])])]
  | Comparison LteOperation f v =>
      _ <- py_assert (negb (isinstance_list v)) ;;
      Ok [("range", PDict [(f, PDict [("lte", v)])])]
  end.

(** ** Weaviate *)

(** [{"path": [field_name], "operator": operator, comp_value_type: comp_value}] *)
Definition weaviate_comparison (field_name operator : string)
  (typed : string * pyval) : pydict :=
  [("path", PList [PStr field_name]); ("operator", PStr operator);
   (fst typed, snd typed)].

(** [{"operator": operator, "operands": conditions}] *)
Definition weaviate_operands (operator : string) (conditions : list pydict)
  : pydict :=
  [("operator", PStr operator); ("operands", PList (map PDict conditions))].

(** The nesting depth of a clause, which bounds the depth of the calls of
    [convert_to_weaviate]. *)
Fixpoint depth (c : clause) : nat :=
  match c with
  | Logical _ conditions => S (list_max (map depth conditions))
  | Comparison _ _ _ => 0
  end.

Section Weaviate.
(** [weaviate.WeaviateDocumentStore._convert_date_to_rfc3339], which lives
    in another module: the converted date, or [None] where it raises
    [ValueError]. *)
Variable convert_date_to_rfc3339 : string -> option string.

(** [ComparisonOperation._get_weaviate_datatype]; [value] is [PNone] when
    the argument is left out (or is [None] itself). *)
Definition _get_weaviate_datatype (comparison_value value : pyval)
  : result (string * pyval) :=
  value <-
    match value with
    | PNone =>
        _ <- py_assert (negb (isinstance_list comparison_value)) ;;
        Ok comparison_value
    | _ => Ok value
    end ;;
  match value with
  | PStr s =>
      match convert_date_to_rfc3339 s with
      | Some date => Ok ("valueDate", PStr date)
      | None => Ok ("valueString", value)
      end
  | _ =>
      if isinstance_int value then Ok ("valueInt", value)
      else if isinstance_float value then Ok ("valueNumber", value)
      else if isinstance_bool value then Ok ("valueBoolean", value)
      else Raise ValueError
  end.

(** [convert_to_weaviate] of the six classes that compare with one value;
    the four range classes assert once more, on the typed value. *)
Definition scalar_to_weaviate (operator : string) (again : bool)
  (field_name : string) (comparison_value : pyval) : result pydict :=
  typed <- _get_weaviate_datatype comparison_value PNone ;;
  _ <- (if again then py_assert (negb (isinstance_list (snd typed)))
        else Ok tt) ;;
  Ok (weaviate_comparison field_name operator typed).

(** [convert_to_weaviate] of [InOperation] and [NinOperation]: one operand
    per element of the list. *)
Definition list_to_weaviate (outer operator : string)
  (field_name : string) (comparison_value : pyval) : result pydict :=
  _ <- py_assert (isinstance_list comparison_value) ;;
  match comparison_value with
  | PList values =>
      operands <-
        mapM (fun value =>
                typed <- _get_weaviate_datatype comparison_value value ;;
                Ok (weaviate_comparison field_name operator typed))
          values ;;
      Ok (weaviate_operands outer operands)
  | _ => Raise AssertionError
  end.

(** The [convert_to_weaviate] methods of the comparison classes. *)
Definition comparison_to_weaviate (cls : ComparisonOperation)
  : string -> pyval -> result pydict :=
  match cls with
  | EqOperation => scalar_to_weaviate "Equal" false
  | InOperation => list_to_weaviate "Or" "Equal"
  | NeOperation => scalar_to_weaviate "NotEqual" false
  | NinOperation => list_to_weaviate "And" "NotEqual"
  | GtOperation => scalar_to_weaviate "GreaterThan" true
  | GteOperation => scalar_to_weaviate "GreaterThanEqual" true
  | LtOperation => scalar_to_weaviate "LessThan" true
  | LteOperation => scalar_to_weaviate "LessThanEqual" true
  end.

(** The [convert_to_weaviate] methods.  [NotOperation] converts the
    inversions of its conditions, which are not parts of the clause, so the
    recursion is bounded by a number of nested calls. *)
Fixpoint weaviate_calls (calls : nat) (c : clause) : result pydict :=
  match calls with
  | O => Raise RecursionError
  | S calls =>
      match c with
      | Logical NotOperation conditions =>
          conditions <-
            mapM (fun condition => weaviate_calls calls (invert condition))
              conditions ;;
          if Nat.ltb 1 (List.length conditions)
          then Ok (weaviate_operands "And" conditions)
          else
            match conditions with
            | [] => Raise IndexError
            | first :: _ => Ok first
            end
      | Logical AndOperation conditions =>
          conditions <- mapM (weaviate_calls calls) conditions ;;
          Ok (weaviate_operands "And" conditions)
      | Logical OrOperation conditions =>
          conditions <- mapM (weaviate_calls calls) conditions ;;
          Ok (weaviate_operands "Or" conditions)
      | Comparison cls f v => comparison_to_weaviate cls f v
      end
  end.

(** [convert_to_weaviate], with as many calls as the clause can nest. *)
Definition convert_to_weaviate (c : clause) : result pydict :=
  weaviate_calls (S (depth c)) c.
End Weaviate.

(** ** Notions used by the properties *)

(** The truth table of the inversion transform, as the specification writes
    it: the dual of a logical kind and the complement of a comparison
    operator. *)
Definition spec_dual (kind : LogicalFilterClause) : LogicalFilterClause :=
  match kind with
  | AndOperation => OrOperation
  | OrOperation => AndOperation
  | NotOperation => OrOperation
  end.

Definition spec_complement (op : ComparisonOperation) : ComparisonOperation :=
  match op with
  | EqOperation => NeOperation
  | NeOperation => EqOperation
  | InOperation => NinOperation
  | NinOperation => InOperation
  | GtOperation => LteOperation
  | GteOperation => LtOperation
  | LtOperation => GteOperation
  | LteOperation => GtOperation
  end.

Fixpoint spec_invert (node : clause) : clause :=
  match node with
  | Logical kind cs => Logical (spec_dual kind) (map spec_invert cs)
  | Comparison op field value => Comparison (spec_complement op) field value
  end.

(** No [NotOperation] anywhere in the clause. *)
Fixpoint not_free (c : clause) : bool :=
  match c with
  | Logical NotOperation _ => false
  | Logical _ conditions => forallb not_free conditions
  | Comparison _ _ _ => true
  end.

(** The clause with And in the place of every Not. *)
Fixpoint not_to_and (c : clause) : clause :=
  match c with
  | Logical NotOperation cs => Logical AndOperation (map not_to_and cs)
  | Logical cls cs => Logical cls (map not_to_and cs)
  | Comparison cls f v => Comparison cls f v
  end.

(** Structural equality up to the order of the conditions of logical
    clauses; comparisons are compared as they are. *)
Inductive same_modulo_order : clause -> clause -> Prop :=
| smo_comparison cls f v :
    same_modulo_order (Comparison cls f v) (Comparison cls f v)
| smo_logical cls cs ds ds' :
    Forall2 same_modulo_order cs ds' ->
    Permutation ds' ds ->
    same_modulo_order (Logical cls cs) (Logical cls ds).

(** Every logical clause has at least one condition. *)
Fixpoint logical_nonempty (c : clause) : bool :=
  match c with
  | Logical _ conditions =>
      match conditions with
      | [] => false
      | _ :: _ => forallb logical_nonempty conditions
      end
  | Comparison _ _ _ => true
  end.

(** The three keys that [parse] takes as logical operators. *)
Definition is_logical_key (key : string) : bool :=
  (key =? "$not") || (key =? "$and") || (key =? "$or").

(** The item [key: value] of a mapping adds at least one condition: a
    logical key always adds one clause, a field adds its comparisons. *)
Definition item_yields (kv : string * pyval) : bool :=
  is_logical_key (fst kv)
  || match ComparisonOperation_parse (fst kv) (snd kv) with
     | [] => false
     | _ :: _ => true
     end.

(** Some item of the mapping(s) of a term adds a condition. *)
Definition term_yields (filter_term : pyval) : bool :=
  match filter_term with
  | PDict item => existsb item_yields item
  | PList l =>
      existsb (fun x => match x with
                        | PDict item => existsb item_yields item
                        | _ => false
                        end) l
  | _ => false
  end.

(** The term, and the operand of every logical key in it at any depth,
    yields at least one condition. *)
Fixpoint operands_nonempty (filter_term : pyval) : bool :=
  term_yields filter_term
  && match filter_term with
     | PDict item =>
         forallb (fun kv => if is_logical_key (fst kv)
                            then operands_nonempty (snd kv) else true) item
     | PList l =>
         forallb (fun x =>
                    match x with
                    | PDict item =>
                        forallb (fun kv => if is_logical_key (fst kv)
                                           then operands_nonempty (snd kv)
                                           else true) item
                    | _ => true
                    end) l
     | _ => true
     end.

(** The classes whose comparison value is to be a list. *)
Definition list_operator (cls : ComparisonOperation) : bool :=
  match cls with
  | InOperation | NinOperation => true
  | _ => false
  end.

(** A scalar given to a list operator, or a list to a scalar operator. *)
Definition arity_violation (cls : ComparisonOperation) (value : pyval) : bool :=
  if list_operator cls then negb (isinstance_list value)
  else isinstance_list value.

(** The position of the last clause of a list that has a ["range"] key. *)
Fixpoint last_range_index (conditions : list pydict) : option nat :=
  match conditions with
  | [] => None
  | condition :: r =>
      match last_range_index r with
      | Some i => Some (S i)
      | None => if has_range condition then Some O else None
      end
  end.

(** The list has both range clauses and other clauses. *)
Definition mixes_range (conditions : list pydict) : bool :=
  existsb has_range conditions
  && existsb (fun condition => negb (has_range condition)) conditions.

(** A Weaviate node [{"operator": "And" | "Or", "operands": [x]}] with
    exactly one operand. *)
Definition singleton_operands (d : pydict) : bool :=
  match dict_get "operator" d, dict_get "operands" d with
  | Some (PStr operator), Some (PList [_]) =>
      (operator =? "And") || (operator =? "Or")
  | _, _ => false
  end.

(** No node of the document, at any depth, is such a singleton. *)
Fixpoint singleton_free (doc : pyval) : bool :=
  match doc with
  | PDict d =>
      negb (singleton_operands d)
      && forallb (fun kv => singleton_free (snd kv)) d
  | PList l => forallb singleton_free l
  | _ => true
  end.

(** The filters of the examples. *)
Definition date_range_filter : pyval :=
  PDict [("date", PDict [("$gte", PStr "2015-01-01");
                         ("$lt", PStr "2021-01-01")])].

Definition not_two_filter : pyval :=
  PDict [("$not", PDict [("a", PInt 1); ("b", PInt 2)])].

Definition empty_and_filter : pyval := PDict [("$and", PDict [])].

Definition single_and_filter : pyval := PDict [("$and", PDict [("a", PInt 1)])].

Definition range_first_filter : pyval :=
  PDict [("date", PDict [("$gte", PStr "2015-01-01")]);
         ("type", PStr "article")].

(** What the first loop of the range merge reads in each range clause: the
    first field of the clause, and the first operator of that field with its
    value. *)
Definition range_entry (condition : pydict)
  : list (string * string * pyval) :=
  match dict_get "range" condition with
  | Some (PDict ((field_name, PDict ((operation, value) :: _)) :: _)) =>
      [(field_name, operation, value)]
  | _ => []
  end.

Definition range_entries (conditions : list pydict)
  : list (string * string * pyval) :=
  flat_map range_entry conditions.

(** The dictionary that the first loop builds from these entries. *)
Definition merged_ranges (entries : list (string * string * pyval))
  : list (string * pydict) :=
  fold_left (fun d e => nested_set (fst (fst e)) (snd (fst e)) (snd e) d)
    entries [].

(** The clauses that the conditions of [range_first_filter] emit, a range
    clause and then a term clause, and the same clauses merged. *)
Definition range_first_clauses : list pydict :=
  [[("range", PDict [("date", PDict [("gte", PStr "2015-01-01")])])];
   [("term", PDict [("type", PStr "article")])]].

Definition range_first_merged : list pydict :=
  [[("term", PDict [("type", PStr "article")])];
   [("range", PDict [("date", PDict [("gte", PStr "2015-01-01")])])]].

(** ** Notions used by the further properties *)

(** [isinstance(value, dict)] *)
Definition isinstance_dict (v : pyval) : bool :=
  match v with PDict _ => true | _ => false end.

(** The values that [_get_weaviate_datatype] gives a type: strings,
    integers, floating-point values and booleans. *)
Definition is_scalar_value (v : pyval) : bool :=
  match v with
  | PStr _ | PInt _ | PFloat _ | PBool _ => true
  | _ => false
  end.



(** The field and value of every comparison of a clause, from left to
    right. *)
Fixpoint comparisons (c : clause) : list (string * pyval) :=
  match c with
  | Logical _ conditions => flat_map comparisons conditions
  | Comparison _ f v => [(f, v)]
  end.

(** Every comparison of the clause has a list with a list operator and
    another value with the other operators. *)
Fixpoint arity_respected (c : clause) : bool :=
  match c with
  | Logical _ conditions => forallb arity_respected conditions
  | Comparison cls _ v => negb (arity_violation cls v)
  end.

(** The field of each clause of a list that has a ["range"] key. *)
Definition range_fields (conditions : list pydict) : list string :=
  flat_map (fun condition =>
              match dict_get "range" condition with
              | Some (PDict ((field_name, _) :: _)) => [field_name]
              | _ => []
              end) conditions.

(** [condition["range"][field_name][operation]], where all three keys are
    present. *)
Definition clause_value (field_name operation : string) (condition : pydict)
  : option pyval :=
  match dict_get "range" condition with
  | Some (PDict fields) =>
      match dict_get field_name fields with
      | Some (PDict ops) => dict_get operation ops
      | _ => None
      end
  | _ => None
  end.

(** The value that the last clause of the list with the three keys holds. *)
Definition range_value (field_name operation : string)
  (conditions : list pydict) : option pyval :=
  fold_left (fun found condition =>
               match clause_value field_name operation condition with
               | Some v => Some v
               | None => found
               end) conditions None.

(** The comparison value has the values that Weaviate types: one of them
    with a scalar operator, a list of them with a list operator. *)
Definition weaviate_value (cls : ComparisonOperation) (v : pyval) : bool :=
  if list_operator cls
  then match v with
       | PList values => forallb is_scalar_value values
       | _ => false
       end
  else is_scalar_value v.

Fixpoint weaviate_values (c : clause) : bool :=
  match c with
  | Logical _ conditions => forallb weaviate_values conditions
  | Comparison cls _ v => weaviate_value cls v
  end.

(** The clauses that [convert_to_weaviate] converts: the comparisons have
    typed values, and a Not that is not itself under a Not has a
    condition. *)
Fixpoint weaviate_emittable (c : clause) : bool :=
  match c with
  | Logical NotOperation conditions =>
      match conditions with
      | [] => false
      | _ :: _ => forallb weaviate_values conditions
      end
  | Logical _ conditions => forallb weaviate_emittable conditions
  | Comparison cls _ v => weaviate_value cls v
  end.

(** The operators of the Weaviate filters that the emitter writes. *)
Definition weaviate_operator (operator : string) : bool :=
  (operator =? "And") || (operator =? "Or") || (operator =? "Equal")
  || (operator =? "NotEqual") || (operator =? "GreaterThan")
  || (operator =? "GreaterThanEqual") || (operator =? "LessThan")
  || (operator =? "LessThanEqual").

(** Every ["operator"] of the document, at any depth, is one of them. *)
Fixpoint operators_supported (doc : pyval) : bool :=
  match doc with
  | PDict d =>
      match dict_get "operator" d with
      | Some (PStr operator) => weaviate_operator operator
      | Some _ => false
      | None => true
      end
      && forallb (fun kv => operators_supported (snd kv)) d
  | PList l => forallb operators_supported l
  | _ => true
  end.

(** The conditions that one item [key: value] of a mapping adds in the loop
    of [parse]. *)
Definition key_conditions
  (parse_operand : option LogicalFilterClause -> pyval -> result clause)
  (key : string) (value : pyval) : result (list clause) :=
  if key =? "$not" then
    c <- parse_operand (Some NotOperation) value ;; Ok [c]
  else if key =? "$and" then
    c <- parse_operand (Some AndOperation) value ;; Ok [c]
  else if key =? "$or" then
    c <- parse_operand (Some OrOperation) value ;; Ok [c]
  else Ok (ComparisonOperation_parse key value).

(** [d[field_name][operation]] on the dictionary of the range merge, where
    both keys are present. *)
Fixpoint nested_get (field_name operation : string)
  (d : list (string * pydict)) : option pyval :=
  match d with
  | [] => None
  | (k, ops) :: r =>
      if k =? field_name then dict_get operation ops
      else nested_get field_name operation r
  end.

(** Induction over values, with the hypotheses for the values nested in a
    list or a dict. *)
Lemma pyval_nested_ind (P : pyval -> Prop)
  (HNone : P PNone)
  (HBool : forall b, P (PBool b))
  (HInt : forall z, P (PInt z))
  (HFloat : forall x, P (PFloat x))
  (HStr : forall s, P (PStr s))
  (HList : forall l, Forall P l -> P (PList l))
  (HDict : forall d, Forall (fun kv => P (snd kv)) d -> P (PDict d)) :
  forall v, P v.
Proof.
  fix IH 1. intros [ | b | z | x | s | l | d ].
  - exact HNone.
  - exact (HBool b).
  - exact (HInt z).
  - exact (HFloat x).
  - exact (HStr s).
  - apply HList. induction l as [ | a l IHl ]; constructor.
    + exact (IH a).
    + exact IHl.
  - apply HDict. induction d as [ | [k a] d IHd ]; constructor.
    + exact (IH a).
    + exact IHd.
Qed.

Lemma clause_nested_ind (P : clause -> Prop)
  (HLogical : forall cls cs, Forall P cs -> P (Logical cls cs))
  (HComparison : forall cls f v, P (Comparison cls f v)) :
  forall c, P c.
Proof.
  fix IH 1. intros [ cls cs | cls f v ].
  - apply HLogical. induction cs as [ | a cs IHcs ]; constructor.
    + exact (IH a).
    + exact IHcs.
  - exact (HComparison cls f v).
Qed.

(** * Properties *)

(** ** Exceptions and comprehensions *)

Lemma bind_Ok_inv (A B : Type) (m : result A) (f : A -> result B) (b : B) :
  bind m f = Ok b -> exists a, m = Ok a /\ f a = Ok b.
Proof.
  destruct m as [ a | e ]; simpl; intros H.
  - exists a. split; [ reflexivity | exact H ].
  - discriminate H.
Qed.

Lemma mapM_ext_in (A B : Type) (f g : A -> result B) (l : list A) :
  (forall a, In a l -> f a = g a) -> mapM f l = mapM g l.
Proof.
  induction l as [ | a l IHl ]; simpl; intros H.
  - reflexivity.
  - rewrite (H a) by (left; reflexivity).
    rewrite IHl by (intros x Hx; apply H; right; exact Hx).
    reflexivity.
Qed.

Lemma mapM_map (A B C : Type) (g : A -> B) (f : B -> result C) (l : list A) :
  mapM f (map g l) = mapM (fun a => f (g a)) l.
Proof.
  induction l as [ | a l IHl ]; simpl.
  - reflexivity.
  - rewrite IHl. reflexivity.
Qed.

Lemma mapM_Ok_Forall2 (A B : Type) (f : A -> result B) (l : list A)
  (bs : list B) :
  mapM f l = Ok bs -> Forall2 (fun a b => f a = Ok b) l bs.
Proof.
  revert bs. induction l as [ | a l IHl ]; simpl; intros bs H.
  - injection H as <-. constructor.
  - apply bind_Ok_inv in H. destruct H as [b [Hb H]].
    apply bind_Ok_inv in H. destruct H as [bs' [Hbs H]].
    injection H as <-. constructor; [ exact Hb | apply IHl; exact Hbs ].
Qed.

Lemma mapM_Ok_length (A B : Type) (f : A -> result B) (l : list A)
  (bs : list B) :
  mapM f l = Ok bs -> List.length bs = List.length l.
Proof.
  intros H. apply mapM_Ok_Forall2 in H.
  symmetry. exact (Forall2_length H).
Qed.

(** ** Inversion *)

(** C8. [invert] follows the truth table of the specification on every
    clause: And becomes Or, Or becomes And and Not becomes Or, each over the
    inverted conditions, and a comparison swaps its operator (Eq/Ne,
    In/NotIn, Gt/Lte, Gte/Lt) and keeps its field and value. *)
Theorem invert_truth_table (c : clause) : invert c = spec_invert c.
Proof.
  induction c as [ cls cs IH | cls f v ] using clause_nested_ind.
  - assert (Hmap : map invert cs = map spec_invert cs).
    { induction IH as [ | a cs Ha _ IHcs ]; simpl.
      - reflexivity.
      - rewrite Ha, IHcs. reflexivity. }
    destruct cls; simpl; rewrite Hmap; reflexivity.
  - destruct cls; reflexivity.
Qed.

(** Inverting twice turns every Not into And and changes nothing else. *)
Lemma invert_invert (c : clause) : invert (invert c) = not_to_and c.
Proof.
  induction c as [ cls cs IH | cls f v ] using clause_nested_ind.
  - assert (Hmap : map invert (map invert cs) = map not_to_and cs).
    { induction IH as [ | a cs Ha _ IHcs ]; simpl.
      - reflexivity.
      - rewrite Ha, IHcs. reflexivity. }
    destruct cls; simpl; rewrite Hmap; reflexivity.
  - destruct cls; reflexivity.
Qed.

Lemma not_to_and_not_free (c : clause) : not_free c = true -> not_to_and c = c.
Proof.
  induction c as [ cls cs IH | cls f v ] using clause_nested_ind.
  - intros H.
    assert (Hmap : forallb not_free cs = true -> map not_to_and cs = cs).
    { clear H. induction IH as [ | a cs Ha _ IHcs ]; simpl; intros H.
      - reflexivity.
      - apply andb_true_iff in H. destruct H as [H1 H2].
        rewrite (Ha H1), (IHcs H2). reflexivity. }
    destruct cls; simpl in *;
      [ discriminate H | rewrite (Hmap H); reflexivity .. ].
  - reflexivity.
Qed.

(** C2, as the code has it. For every clause without a Not, inverting twice
    gives the clause back, with the conditions in their original order. *)
Theorem invert_invert_not_free (c : clause) :
  not_free c = true -> invert (invert c) = c.
Proof.
  intros H. rewrite invert_invert. apply not_to_and_not_free. exact H.
Qed.

Lemma invert_invert_not_free_witness :
  invert (invert (Logical AndOperation
                    [Comparison EqOperation "type" (PStr "article");
                     Logical OrOperation
                       [Comparison GtOperation "rating" (PInt 3);
                        Comparison InOperation "genre"
                          (PList [PStr "economy"; PStr "politics"])]]))
  = Logical AndOperation
      [Comparison EqOperation "type" (PStr "article");
       Logical OrOperation
         [Comparison GtOperation "rating" (PInt 3);
          Comparison InOperation "genre"
            (PList [PStr "economy"; PStr "politics"])]].
Proof.
  apply invert_invert_not_free. reflexivity.
Defined.

(** C2, as stated, fails on a Not: inverting [Not [type = article]] twice
    gives [And [type = article]], which no reordering of conditions makes
    equal to the Not. *)
Lemma invert_invert_not_counterexample :
  invert (invert (Logical NotOperation
                    [Comparison EqOperation "type" (PStr "article")]))
  = Logical AndOperation [Comparison EqOperation "type" (PStr "article")]
  /\ ~ same_modulo_order
         (invert (invert (Logical NotOperation
                            [Comparison EqOperation "type" (PStr "article")])))
         (Logical NotOperation
            [Comparison EqOperation "type" (PStr "article")]).
Proof.
  split.
  - reflexivity.
  - simpl. intros H. inversion H.
Qed.

(** ** Parsing *)

(** C10. At the top level, a mapping whose keys give two or more conditions
    parses to the And of these conditions, and a mapping whose keys give
    exactly one condition parses to that condition itself, with no And
    around it. *)
Theorem parse_top_level (item : pydict) (conditions : list clause) :
  parse_item parse_cls item = Ok conditions ->
  (2 <= List.length conditions ->
   parse (PDict item) = Ok (Logical AndOperation conditions))
  /\ (forall c, conditions = [c] -> parse (PDict item) = Ok c).
Proof.
  intros Hitem. unfold parse. simpl. rewrite Hitem. simpl. split.
  - intros Hlen. destruct conditions as [ | c1 [ | c2 r ] ]; simpl in Hlen.
    + lia.
    + lia.
    + reflexivity.
  - intros c ->. reflexivity.
Qed.

Lemma parse_top_level_witness :
  parse (PDict [("type", PStr "article");
                ("rating", PDict [("$gte", PInt 3)])])
  = Ok (Logical AndOperation
          [Comparison EqOperation "type" (PStr "article");
           Comparison GteOperation "rating" (PInt 3)])
  /\ parse (PDict [("type", PStr "article")])
     = Ok (Comparison EqOperation "type" (PStr "article")).
Proof.
  split.
  - apply (proj1 (@parse_top_level
                    [("type", PStr "article");
                     ("rating", PDict [("$gte", PInt 3)])]
                    [Comparison EqOperation "type" (PStr "article");
                     Comparison GteOperation "rating" (PInt 3)]
                    eq_refl)).
    simpl. lia.
  - apply (proj2 (@parse_top_level
                    [("type", PStr "article")]
                    [Comparison EqOperation "type" (PStr "article")]
                    eq_refl)).
    reflexivity.
Defined.

(** ** Construction of comparisons *)

(** C5, as the code has it. Constructing a comparison never raises: a list
    operator with a scalar, or a scalar operator with a list, is built as
    given, and the failure is deferred to emission, where both emitters
    raise [AssertionError]. *)
Theorem arity_violation_deferred (convert_date : string -> option string)
  (cls : ComparisonOperation) (field_name : string) (value : pyval) :
  arity_violation cls value = true ->
  ComparisonOperation_init cls field_name value
  = Ok (Comparison cls field_name value)
  /\ convert_to_elasticsearch (Comparison cls field_name value)
     = Raise AssertionError
  /\ convert_to_weaviate convert_date (Comparison cls field_name value)
     = Raise AssertionError.
Proof.
  intros H. split; [ reflexivity | ].
  destruct cls; destruct value; simpl in H; try discriminate H;
    split; reflexivity.
Qed.

Lemma arity_violation_deferred_witness :
  ComparisonOperation_init InOperation "genre" (PStr "economy")
  = Ok (Comparison InOperation "genre" (PStr "economy"))
  /\ convert_to_elasticsearch (Comparison InOperation "genre" (PStr "economy"))
     = Raise AssertionError
  /\ convert_to_weaviate (fun _ => None)
       (Comparison InOperation "genre" (PStr "economy"))
     = Raise AssertionError.
Proof.
  apply (@arity_violation_deferred (fun _ => None) InOperation "genre"
           (PStr "economy")).
  reflexivity.
Defined.

(** C5, as stated, fails: the construction of an In with a scalar and of an
    Eq with a list both return the comparison, and [parse] returns the In
    that it builds from [{"genre": {"$in": "economy"}}]. *)
Lemma construction_arity_counterexample :
  arity_violation InOperation (PStr "economy") = true
  /\ ComparisonOperation_init InOperation "genre" (PStr "economy")
     = Ok (Comparison InOperation "genre" (PStr "economy"))
  /\ arity_violation EqOperation (PList [PStr "economy"; PStr "politics"])
     = true
  /\ ComparisonOperation_init EqOperation "genre"
       (PList [PStr "economy"; PStr "politics"])
     = Ok (Comparison EqOperation "genre"
             (PList [PStr "economy"; PStr "politics"]))
  /\ parse (PDict [("genre", PDict [("$in", PStr "economy")])])
     = Ok (Comparison InOperation "genre" (PStr "economy")).
Proof.
  repeat split.
Qed.

(** ** Elasticsearch: the example of the range merge *)

(** C9. The filter [{"date": {"$gte": "2015-01-01", "$lt": "2021-01-01"}}]
    parses to the And of two range comparisons on [date], and its
    Elasticsearch query has one range clause, which carries both [gte] and
    [lt]. *)
Theorem date_range_merged :
  parse date_range_filter
  = Ok (Logical AndOperation
          [Comparison GteOperation "date" (PStr "2015-01-01");
           Comparison LtOperation "date" (PStr "2021-01-01")])
  /\ convert_to_elasticsearch
       (Logical AndOperation
          [Comparison GteOperation "date" (PStr "2015-01-01");
           Comparison LtOperation "date" (PStr "2021-01-01")])
     = Ok [("bool",
            PDict [("must",
                    PList [PDict [("range",
                                   PDict [("date",
                                           PDict [("gte", PStr "2015-01-01");
                                                  ("lt", PStr "2021-01-01")])])]])])].
Proof.
  split; reflexivity.
Qed.

(** ** Weaviate: value typing *)

(** The kinds that [_get_weaviate_datatype] types as the specification says:
    integers, floating-point values, and the failure on a mapping, on a list
    passed as an element, and on a missing value. *)
Lemma weaviate_datatype_kinds (convert_date : string -> option string)
  (comparison_value : pyval) :
  (forall z, _get_weaviate_datatype convert_date comparison_value (PInt z)
             = Ok ("valueInt", PInt z))
  /\ (forall x, _get_weaviate_datatype convert_date comparison_value (PFloat x)
                = Ok ("valueNumber", PFloat x))
  /\ (forall d, _get_weaviate_datatype convert_date comparison_value (PDict d)
                = Raise ValueError)
  /\ (forall l, _get_weaviate_datatype convert_date comparison_value (PList l)
                = Raise ValueError)
  /\ _get_weaviate_datatype convert_date PNone PNone = Raise ValueError.
Proof.
  repeat split.
Qed.

(** C4, on the code. A boolean is typed [valueInt], not [valueBoolean]: the
    test for [int] comes first and holds of booleans, so the comparison
    [flag = True] is emitted under [valueInt]. *)
Theorem weaviate_datatype_of_bool (convert_date : string -> option string)
  (comparison_value : pyval) (b : bool) :
  _get_weaviate_datatype convert_date comparison_value (PBool b)
  = Ok ("valueInt", PBool b)
  /\ convert_to_weaviate convert_date
       (Comparison EqOperation "flag" (PBool true))
     = Ok [("path", PList [PStr "flag"]); ("operator", PStr "Equal");
           ("valueInt", PBool true)].
Proof.
  split; reflexivity.
Qed.

(** ** Weaviate: elimination of Not *)

(** C1, on the code. The filter [{"$not": {"a": 1, "b": 2}}] parses to a Not
    of two conditions; the emitter combines their inversions under ["And"],
    while emitting the inversion of the And of the two conditions gives the
    same operands under ["Or"]. *)
Theorem not_of_two_emits_and (convert_date : string -> option string) :
  parse not_two_filter
  = Ok (Logical NotOperation
          [Comparison EqOperation "a" (PInt 1);
           Comparison EqOperation "b" (PInt 2)])
  /\ convert_to_weaviate convert_date
       (Logical NotOperation
          [Comparison EqOperation "a" (PInt 1);
           Comparison EqOperation "b" (PInt 2)])
     = Ok (weaviate_operands "And"
             [weaviate_comparison "a" "NotEqual" ("valueInt", PInt 1);
              weaviate_comparison "b" "NotEqual" ("valueInt", PInt 2)])
  /\ convert_to_weaviate convert_date
       (invert (Logical AndOperation
                  [Comparison EqOperation "a" (PInt 1);
                   Comparison EqOperation "b" (PInt 2)]))
     = Ok (weaviate_operands "Or"
             [weaviate_comparison "a" "NotEqual" ("valueInt", PInt 1);
              weaviate_comparison "b" "NotEqual" ("valueInt", PInt 2)]).
Proof.
  repeat split.
Qed.

(** ** Weaviate: the bound on nested calls is enough *)

Lemma depth_invert (c : clause) : depth (invert c) = depth c.
Proof.
  induction c as [ cls cs IH | cls f v ] using clause_nested_ind.
  - assert (Hmap : map depth (map invert cs) = map depth cs).
    { induction IH as [ | a cs Ha _ IHcs ]; simpl.
      - reflexivity.
      - rewrite Ha, IHcs. reflexivity. }
    destruct cls; simpl; rewrite Hmap; reflexivity.
  - destruct cls; reflexivity.
Qed.

Lemma depth_condition (cs : list clause) (c : clause) :
  In c cs -> depth c <= list_max (map depth cs).
Proof.
  induction cs as [ | a cs IHcs ]; simpl; intros H.
  - contradiction.
  - destruct H as [ -> | H ].
    + apply Nat.le_max_l.
    + etransitivity; [ apply IHcs; exact H | apply Nat.le_max_r ].
Qed.

Lemma weaviate_calls_stable (convert_date : string -> option string) :
  forall (n m : nat) (c : clause),
    depth c < n -> depth c < m ->
    weaviate_calls convert_date n c = weaviate_calls convert_date m c.
Proof.
  induction n as [ | n IHn ]; intros m c Hn Hm; [ lia | ].
  destruct m as [ | m ]; [ lia | ].
  destruct c as [ cls cs | cls f v ]; [ | reflexivity ].
  simpl in Hn, Hm.
  assert (Hcs : forall x, In x cs -> depth x < n /\ depth x < m).
  { intros x Hx. apply depth_condition in Hx. lia. }
  destruct cls; simpl.
  - rewrite (@mapM_ext_in _ _
               (fun x => weaviate_calls convert_date n (invert x))
               (fun x => weaviate_calls convert_date m (invert x))).
    + reflexivity.
    + intros x Hx. destruct (Hcs x Hx).
      apply IHn; rewrite depth_invert; assumption.
  - rewrite (@mapM_ext_in _ _ (weaviate_calls convert_date n)
               (weaviate_calls convert_date m)).
    + reflexivity.
    + intros x Hx. destruct (Hcs x Hx). apply IHn; assumption.
  - rewrite (@mapM_ext_in _ _ (weaviate_calls convert_date n)
               (weaviate_calls convert_date m)).
    + reflexivity.
    + intros x Hx. destruct (Hcs x Hx). apply IHn; assumption.
Qed.

Lemma weaviate_calls_conditions (convert_date : string -> option string)
  (cs : list clause) :
  mapM (weaviate_calls convert_date (S (list_max (map depth cs)))) cs
  = mapM (convert_to_weaviate convert_date) cs.
Proof.
  apply mapM_ext_in. intros x Hx. unfold convert_to_weaviate.
  apply depth_condition in Hx. apply weaviate_calls_stable; lia.
Qed.

Lemma weaviate_calls_inverted (convert_date : string -> option string)
  (cs : list clause) :
  mapM (fun x => weaviate_calls convert_date (S (list_max (map depth cs)))
                   (invert x)) cs
  = mapM (fun x => convert_to_weaviate convert_date (invert x)) cs.
Proof.
  apply mapM_ext_in. intros x Hx. unfold convert_to_weaviate.
  apply depth_condition in Hx.
  apply weaviate_calls_stable; rewrite depth_invert; lia.
Qed.

Lemma weaviate_calls_not (convert_date : string -> option string) (n : nat)
  (cs : list clause) :
  weaviate_calls convert_date (S n) (Logical NotOperation cs)
  = (conditions <-
       mapM (fun x => weaviate_calls convert_date n (invert x)) cs ;;
     if Nat.ltb 1 (List.length conditions)
     then Ok (weaviate_operands "And" conditions)
     else match conditions with
          | [] => Raise IndexError
          | first :: _ => Ok first
          end).
Proof. reflexivity. Qed.

Lemma weaviate_calls_and_or (convert_date : string -> option string) (n : nat)
  (cs : list clause) :
  weaviate_calls convert_date (S n) (Logical AndOperation cs)
  = (conditions <- mapM (weaviate_calls convert_date n) cs ;;
     Ok (weaviate_operands "And" conditions))
  /\ weaviate_calls convert_date (S n) (Logical OrOperation cs)
     = (conditions <- mapM (weaviate_calls convert_date n) cs ;;
        Ok (weaviate_operands "Or" conditions)).
Proof. split; reflexivity. Qed.

(** The three logical methods, as the source writes them. *)
Lemma convert_to_weaviate_not (convert_date : string -> option string)
  (cs : list clause) :
  convert_to_weaviate convert_date (Logical NotOperation cs)
  = (conditions <-
       mapM (fun x => convert_to_weaviate convert_date (invert x)) cs ;;
     if Nat.ltb 1 (List.length conditions)
     then Ok (weaviate_operands "And" conditions)
     else match conditions with
          | [] => Raise IndexError
          | first :: _ => Ok first
          end).
Proof.
  unfold convert_to_weaviate at 1.
  change (depth (Logical NotOperation cs)) with (S (list_max (map depth cs))).
  rewrite weaviate_calls_not, weaviate_calls_inverted. reflexivity.
Qed.

Lemma convert_to_weaviate_and (convert_date : string -> option string)
  (cs : list clause) :
  convert_to_weaviate convert_date (Logical AndOperation cs)
  = (conditions <- mapM (convert_to_weaviate convert_date) cs ;;
     Ok (weaviate_operands "And" conditions)).
Proof.
  unfold convert_to_weaviate at 1.
  change (depth (Logical AndOperation cs)) with (S (list_max (map depth cs))).
  rewrite (proj1 (weaviate_calls_and_or _ _ _)), weaviate_calls_conditions.
  reflexivity.
Qed.

Lemma convert_to_weaviate_or (convert_date : string -> option string)
  (cs : list clause) :
  convert_to_weaviate convert_date (Logical OrOperation cs)
  = (conditions <- mapM (convert_to_weaviate convert_date) cs ;;
     Ok (weaviate_operands "Or" conditions)).
Proof.
  unfold convert_to_weaviate at 1.
  change (depth (Logical OrOperation cs)) with (S (list_max (map depth cs))).
  rewrite (proj2 (weaviate_calls_and_or _ _ _)), weaviate_calls_conditions.
  reflexivity.
Qed.

Lemma mapM_Raise_In (A B : Type) (f : A -> result B) (l : list A) (e : exn) :
  mapM f l = Raise e -> exists a, In a l /\ f a = Raise e.
Proof.
  induction l as [ | a l IHl ]; simpl; intros H.
  - discriminate H.
  - destruct (f a) as [ b | e' ] eqn:Ha; simpl in H.
    + destruct (mapM f l) as [ bs | e' ]; simpl in H; [ discriminate H | ].
      destruct (IHl H) as [x [Hx Hfx]].
      exists x. split; [ right; exact Hx | exact Hfx ].
    + exists a. split; [ left; reflexivity | congruence ].
Qed.

Lemma get_weaviate_datatype_raises (convert_date : string -> option string)
  (comparison_value value : pyval) (e : exn) :
  _get_weaviate_datatype convert_date comparison_value value = Raise e ->
  e = AssertionError \/ e = ValueError.
Proof.
  unfold _get_weaviate_datatype.
  destruct value as [ | b | z | x | s | l | d ]; simpl;
    try (intros H; injection H as <-; auto; fail);
    try discriminate.
  - destruct comparison_value as [ | b | z | x | s | l | d ]; simpl;
      try (intros H; injection H as <-; auto; fail);
      try discriminate.
    destruct (convert_date s); discriminate.
  - destruct (convert_date s); discriminate.
Qed.

Lemma comparison_to_weaviate_raises (convert_date : string -> option string)
  (cls : ComparisonOperation) (f : string) (v : pyval) (e : exn) :
  comparison_to_weaviate convert_date cls f v = Raise e ->
  e = AssertionError \/ e = ValueError.
Proof.
  assert (Hscalar : forall operator again,
             scalar_to_weaviate convert_date operator again f v = Raise e ->
             e = AssertionError \/ e = ValueError).
  { intros operator again. unfold scalar_to_weaviate.
    destruct (_get_weaviate_datatype convert_date v PNone) as [ typed | e' ]
      eqn:Hget; simpl.
    - destruct again; simpl; [ | discriminate ].
      destruct (isinstance_list (snd typed)); simpl; [ | discriminate ].
      intros H. injection H as <-. auto.
    - intros H. injection H as <-.
      exact (get_weaviate_datatype_raises _ _ _ Hget). }
  assert (Hlist : forall outer operator,
             list_to_weaviate convert_date outer operator f v = Raise e ->
             e = AssertionError \/ e = ValueError).
  { intros outer operator. unfold list_to_weaviate.
    destruct v as [ | b | z | x | s | l | d ]; simpl;
      try (intros H; injection H as <-; auto; fail).
    destruct (mapM _ l) as [ operands | e' ] eqn:Hmap; simpl;
      [ discriminate | ].
    intros H. injection H as <-.
    apply mapM_Raise_In in Hmap. destruct Hmap as [a [_ Ha]].
    destruct (_get_weaviate_datatype convert_date (PList l) a)
      as [ typed | e2 ] eqn:Hget; simpl in Ha; [ discriminate Ha | ].
    injection Ha as <-.
    exact (get_weaviate_datatype_raises _ _ _ Hget). }
  destruct cls; cbn [comparison_to_weaviate];
    first [ apply Hscalar | apply Hlist ].
Qed.

(** The bound on the calls is never reached. *)
Lemma weaviate_calls_enough (convert_date : string -> option string) :
  forall (n : nat) (c : clause),
    depth c < n -> weaviate_calls convert_date n c <> Raise RecursionError.
Proof.
  induction n as [ | n IHn ]; intros c Hn; [ lia | ].
  destruct c as [ cls cs | cls f v ]; simpl.
  - simpl in Hn.
    assert (Hcs : forall x, In x cs -> depth x < n).
    { intros x Hx. apply depth_condition in Hx. lia. }
    destruct cls.
    + destruct (mapM _ cs) as [ ds | e ] eqn:Hmap; simpl.
      * destruct (Nat.ltb 1 (List.length ds)); [ discriminate | ].
        destruct ds; discriminate.
      * intros H. injection H as ->.
        apply mapM_Raise_In in Hmap. destruct Hmap as [x [Hx Hr]].
        apply (IHn (invert x)); [ rewrite depth_invert; auto | exact Hr ].
    + destruct (mapM _ cs) as [ ds | e ] eqn:Hmap; simpl; [ discriminate | ].
      intros H. injection H as ->.
      apply mapM_Raise_In in Hmap. destruct Hmap as [x [Hx Hr]].
      apply (IHn x); auto.
    + destruct (mapM _ cs) as [ ds | e ] eqn:Hmap; simpl; [ discriminate | ].
      intros H. injection H as ->.
      apply mapM_Raise_In in Hmap. destruct Hmap as [x [Hx Hr]].
      apply (IHn x); auto.
  - intros H. apply comparison_to_weaviate_raises in H.
    destruct H; discriminate.
Qed.

Lemma convert_to_weaviate_returns (convert_date : string -> option string)
  (c : clause) :
  convert_to_weaviate convert_date c <> Raise RecursionError.
Proof.
  apply weaviate_calls_enough. lia.
Qed.

(** A Not of two or more conditions and the inversion of the And of the same
    conditions are emitted with the same operands, the first under ["And"]
    and the second under ["Or"]. *)
Lemma not_and_inversion_operands (convert_date : string -> option string)
  (cs : list clause) (ds : list pydict) :
  mapM (fun x => convert_to_weaviate convert_date (invert x)) cs = Ok ds ->
  1 < List.length cs ->
  convert_to_weaviate convert_date (Logical NotOperation cs)
  = Ok (weaviate_operands "And" ds)
  /\ convert_to_weaviate convert_date (invert (Logical AndOperation cs))
     = Ok (weaviate_operands "Or" ds).
Proof.
  intros Hds Hlen. split.
  - rewrite convert_to_weaviate_not, Hds. cbn [bind].
    rewrite (mapM_Ok_length _ _ Hds).
    apply Nat.ltb_lt in Hlen. rewrite Hlen. reflexivity.
  - cbn [invert]. rewrite convert_to_weaviate_or, mapM_map, Hds. reflexivity.
Qed.

(** ** Weaviate: wrappers of one operand *)

(** C7, as the code has it. Only a Not with exactly one condition is
    emitted without a wrapper, as the emission of the inverted condition.
    An And or an Or is emitted as an operator node over the emissions of its
    conditions whatever their number, and an In over a list of one value as
    an ["Or"] node of one operand. *)
Theorem weaviate_wrappers (convert_date : string -> option string) :
  (forall c,
      convert_to_weaviate convert_date (Logical NotOperation [c])
      = convert_to_weaviate convert_date (invert c))
  /\ (forall cs,
         convert_to_weaviate convert_date (Logical AndOperation cs)
         = (conditions <- mapM (convert_to_weaviate convert_date) cs ;;
            Ok (weaviate_operands "And" conditions)))
  /\ (forall cs,
         convert_to_weaviate convert_date (Logical OrOperation cs)
         = (conditions <- mapM (convert_to_weaviate convert_date) cs ;;
            Ok (weaviate_operands "Or" conditions)))
  /\ (forall f v,
         convert_to_weaviate convert_date
           (Comparison InOperation f (PList [v]))
         = (typed <- _get_weaviate_datatype convert_date (PList [v]) v ;;
            Ok (weaviate_operands "Or"
                  [weaviate_comparison f "Equal" typed]))).
Proof.
  split; [ | split; [ | split ] ].
  - intros c. rewrite convert_to_weaviate_not. simpl.
    destruct (convert_to_weaviate convert_date (invert c)); reflexivity.
  - apply convert_to_weaviate_and.
  - apply convert_to_weaviate_or.
  - intros f v. unfold convert_to_weaviate. simpl.
    unfold list_to_weaviate. simpl.
    destruct (_get_weaviate_datatype convert_date (PList [v]) v); reflexivity.
Qed.

(** C7, as stated, fails: the filter [{"$and": {"a": 1}}] parses to an And
    of one condition, which is emitted as an ["And"] node with exactly one
    operand. *)
Lemma singleton_and_counterexample :
  parse single_and_filter
  = Ok (Logical AndOperation [Comparison EqOperation "a" (PInt 1)])
  /\ (forall convert_date,
         convert_to_weaviate convert_date
           (Logical AndOperation [Comparison EqOperation "a" (PInt 1)])
         = Ok (weaviate_operands "And"
                 [weaviate_comparison "a" "Equal" ("valueInt", PInt 1)]))
  /\ singleton_free
       (PDict (weaviate_operands "And"
                 [weaviate_comparison "a" "Equal" ("valueInt", PInt 1)]))
     = false.
Proof.
  repeat split.
Qed.

(** ** Elasticsearch: the place of the merged range clauses *)

Lemma has_range_range_clause (item : string * pydict) :
  has_range (range_clause item) = true.
Proof. reflexivity. Qed.

(** A clause that a [convert_to_elasticsearch] method returns has a
    ["range"] key only when it is the clause of one field with one
    operator. *)
Lemma emitted_range_shape (c : clause) (d : pydict) :
  convert_to_elasticsearch c = Ok d ->
  has_range d = true ->
  exists f op v, d = range_clause (f, [(op, v)]).
Proof.
  destruct c as [ cls cs | cls f v ]; simpl; intros H Hr.
  - apply bind_Ok_inv in H. destruct H as [ds [_ H]].
    apply bind_Ok_inv in H. destruct H as [ms [_ H]].
    injection H as <-. discriminate Hr.
  - destruct cls; apply bind_Ok_inv in H; destruct H as [u [_ H]];
      injection H as <-; try discriminate Hr;
      eexists _, _, _; reflexivity.
Qed.

Lemma subscript_ranges (ds : list pydict) :
  Forall (fun d => has_range d = true ->
                   exists f op v, d = range_clause (f, [(op, v)])) ds ->
  mapM (fun cond => subscript (PDict cond) "range") (filter has_range ds)
  = Ok (map (fun e => PDict [(fst (fst e), PDict [(snd (fst e), snd e)])])
          (range_entries ds)).
Proof.
  induction 1 as [ | d ds Hd _ IH ].
  - reflexivity.
  - cbn [filter]. destruct (has_range d) eqn:Hr.
    + destruct (Hd eq_refl) as [f [op [v ->]]].
      unfold range_entries in *. cbn [mapM flat_map].
      rewrite IH. reflexivity.
    + unfold range_entries in *. cbn [flat_map].
      assert (Hnone : range_entry d = []).
      { unfold range_entry. unfold has_range in Hr.
        clear - Hr. induction d as [ | [k x] d IHd ]; simpl in *.
        - reflexivity.
        - destruct (k =? "range"); [ discriminate Hr | exact (IHd Hr) ]. }
      rewrite Hnone. exact IH.
Qed.

Lemma merge_range_conditions_entries (es : list (string * string * pyval)) :
  forall acc,
    merge_range_conditions
      (map (fun e => PDict [(fst (fst e), PDict [(snd (fst e), snd e)])]) es)
      acc
    = Ok (fold_left
            (fun d e => nested_set (fst (fst e)) (snd (fst e)) (snd e) d)
            es acc).
Proof.
  induction es as [ | [[f op] v] es IH ]; intros acc; simpl.
  - reflexivity.
  - repeat (rewrite String.eqb_refl; simpl). apply IH.
Qed.

Lemma nested_set_not_nil (f op : string) (v : pyval)
  (d : list (string * pydict)) :
  nested_set f op v d <> [].
Proof.
  destruct d as [ | [k ops] d ]; simpl.
  - discriminate.
  - destruct (k =? f); discriminate.
Qed.

Lemma fold_nested_set_not_nil (es : list (string * string * pyval)) :
  forall acc,
    acc <> [] ->
    fold_left (fun d e => nested_set (fst (fst e)) (snd (fst e)) (snd e) d)
      es acc <> [].
Proof.
  induction es as [ | e es IH ]; intros acc Hacc.
  - exact Hacc.
  - cbn [fold_left]. apply IH. apply nested_set_not_nil.
Qed.

Lemma merged_ranges_not_nil (es : list (string * string * pyval)) :
  es <> [] -> merged_ranges es <> [].
Proof.
  destruct es as [ | e es ]; intros Hes.
  - contradiction.
  - unfold merged_ranges. cbn [fold_left].
    apply fold_nested_set_not_nil. apply nested_set_not_nil.
Qed.

Lemma filter_no_range (ds : list pydict) :
  existsb has_range ds = false ->
  filter (fun d => negb (has_range d)) ds = ds.
Proof.
  induction ds as [ | d ds IH ]; simpl; intros H.
  - reflexivity.
  - apply orb_false_iff in H. destruct H as [Hd Hds].
    rewrite Hd. simpl. rewrite (IH Hds). reflexivity.
Qed.

Lemma range_entries_exists (ds : list pydict) :
  Forall (fun d => has_range d = true ->
                   exists f op v, d = range_clause (f, [(op, v)])) ds ->
  (range_entries ds = [] <-> existsb has_range ds = false).
Proof.
  induction 1 as [ | d ds Hd _ IH ]; simpl.
  - split; reflexivity.
  - unfold range_entries in *. simpl. destruct (has_range d) eqn:Hr; simpl.
    + destruct (Hd eq_refl) as [f [op [v ->]]]. simpl.
      split; discriminate.
    + assert (Hnone : range_entry d = []).
      { unfold range_entry. unfold has_range in Hr.
        clear - Hr. induction d as [ | [k x] d IHd ]; simpl in *.
        - reflexivity.
        - destruct (k =? "range"); [ discriminate Hr | exact (IHd Hr) ]. }
      rewrite Hnone. exact IH.
Qed.

Lemma merge_emitted (ds : list pydict) :
  Forall (fun d => has_range d = true ->
                   exists f op v, d = range_clause (f, [(op, v)])) ds ->
  _merge_es_range_queries ds
  = Ok (filter (fun d => negb (has_range d)) ds
        ++ map range_clause (merged_ranges (range_entries ds))).
Proof.
  intros Hds. unfold _merge_es_range_queries.
  rewrite (subscript_ranges Hds). cbn [bind].
  destruct (range_entries ds) as [ | e es ] eqn:Hes.
  - cbn [map]. apply (range_entries_exists Hds) in Hes.
    rewrite (filter_no_range _ Hes). unfold merged_ranges. cbn [fold_left map].
    rewrite app_nil_r. reflexivity.
  - pose proof (merge_range_conditions_entries (e :: es) []) as Hmerge.
    cbn [map] in *. rewrite Hmerge. reflexivity.
Qed.

(** C3, as the code has it. For the clauses emitted by the conditions of a
    logical clause, the merge returns the clauses without a range key, in
    their original order, followed by the merged range clauses: these are
    appended at the end of the list, wherever the original range clauses
    were, and there is at least one when the list had a range clause. *)
Theorem merged_ranges_appended (cs : list clause) (ds : list pydict) :
  mapM convert_to_elasticsearch cs = Ok ds ->
  exists merged,
    _merge_es_range_queries ds
    = Ok (filter (fun d => negb (has_range d)) ds ++ merged)
    /\ merged = map range_clause (merged_ranges (range_entries ds))
    /\ Forall (fun d => has_range d = true) merged
    /\ (existsb has_range ds = true -> merged <> []).
Proof.
  intros Hds.
  assert (Hshape : Forall (fun d => has_range d = true ->
                             exists f op v, d = range_clause (f, [(op, v)]))
                     ds).
  { apply mapM_Ok_Forall2 in Hds. clear - Hds.
    induction Hds as [ | c d cs ds Hc _ IH ]; constructor.
    - exact (emitted_range_shape c Hc).
    - exact IH. }
  exists (map range_clause (merged_ranges (range_entries ds))).
  split; [ exact (merge_emitted Hshape) | ].
  split; [ reflexivity | ].
  split.
  - apply Forall_forall. intros d Hd. apply in_map_iff in Hd.
    destruct Hd as [item [<- _]]. apply has_range_range_clause.
  - intros Hex Hnil. apply map_eq_nil in Hnil.
    destruct (range_entries ds) as [ | e es ] eqn:Hes.
    + apply (range_entries_exists Hshape) in Hes. congruence.
    + revert Hnil. apply merged_ranges_not_nil. discriminate.
Qed.

Lemma merged_ranges_appended_witness :
  exists merged,
    _merge_es_range_queries range_first_clauses
    = Ok (filter (fun d => negb (has_range d)) range_first_clauses ++ merged)
    /\ merged = map range_clause (merged_ranges (range_entries range_first_clauses))
    /\ Forall (fun d => has_range d = true) merged
    /\ (existsb has_range range_first_clauses = true -> merged <> []).
Proof.
  apply (@merged_ranges_appended
           [Comparison GteOperation "date" (PStr "2015-01-01");
            Comparison EqOperation "type" (PStr "article")]
           range_first_clauses).
  reflexivity.
Defined.

(** C3, as stated, fails: the conditions of [range_first_filter] emit a range
    clause at position 0 and a term clause at position 1; after the merge
    position 0 holds the term clause and the range clause is last. *)
Lemma range_position_counterexample :
  parse range_first_filter
  = Ok (Logical AndOperation
          [Comparison GteOperation "date" (PStr "2015-01-01");
           Comparison EqOperation "type" (PStr "article")])
  /\ mapM convert_to_elasticsearch
       [Comparison GteOperation "date" (PStr "2015-01-01");
        Comparison EqOperation "type" (PStr "article")]
     = Ok range_first_clauses
  /\ mixes_range range_first_clauses = true
  /\ last_range_index range_first_clauses = Some 0
  /\ _merge_es_range_queries range_first_clauses = Ok range_first_merged
  /\ (exists d, nth_error range_first_merged 0 = Some d
                /\ has_range d = false)
  /\ last_range_index range_first_merged = Some 1.
Proof.
  repeat split. eexists; split; reflexivity.
Qed.

(** ** Parsing: logical clauses without conditions *)

Lemma comparisons_logical_nonempty (field_name : string) (clause_ : pyval) :
  forallb logical_nonempty (ComparisonOperation_parse field_name clause_)
  = true.
Proof.
  destruct clause_ as [ | b | z | x | s | l | d ]; try reflexivity.
  simpl. induction d as [ | [op v] d IHd ]; simpl.
  - reflexivity.
  - destruct (comparison_class op); simpl; exact IHd.
Qed.

Lemma parse_return_nonempty (cls : option LogicalFilterClause)
  (cs : list clause) :
  cs <> [] ->
  forallb logical_nonempty cs = true ->
  logical_nonempty (parse_return cls cs) = true.
Proof.
  intros Hne Hall. destruct cs as [ | c1 cs ]; [ contradiction | ].
  destruct cls as [ k | ].
  - exact Hall.
  - destruct cs as [ | c2 cs ].
    + simpl in *. apply andb_true_iff in Hall. tauto.
    + exact Hall.
Qed.

Lemma app_not_nil (A : Type) (l r : list A) :
  l <> [] \/ r <> [] -> l ++ r <> [].
Proof.
  intros [H | H] Happ; apply app_eq_nil in Happ; tauto.
Qed.

(** The conditions added by the items of one mapping, when the operand of
    each of its logical keys parses to a clause of the wanted kind. *)
Lemma parse_item_nonempty (item : pydict) :
  Forall (fun kv => forall cls T,
              operands_nonempty (snd kv) = true ->
              parse_cls cls (snd kv) = Ok T ->
              logical_nonempty T = true) item ->
  forall cs,
    forallb (fun kv => if is_logical_key (fst kv)
                       then operands_nonempty (snd kv) else true) item = true ->
    parse_item parse_cls item = Ok cs ->
    forallb logical_nonempty cs = true
    /\ (existsb item_yields item = true -> cs <> []).
Proof.
  induction 1 as [ | [key value] item Hkv _ IH ]; intros cs Hops Hparse.
  - injection Hparse as <-. split; [ reflexivity | discriminate ].
  - cbn [forallb fst snd] in Hops. apply andb_true_iff in Hops.
    destruct Hops as [Hop Hops].
    cbn [parse_item] in Hparse.
    apply bind_Ok_inv in Hparse. destruct Hparse as [added [Hadded Hparse]].
    apply bind_Ok_inv in Hparse. destruct Hparse as [rest [Hrest Hparse]].
    injection Hparse as <-.
    destruct (IH rest Hops Hrest) as [IHall IHne].
    assert (Hadd : forallb logical_nonempty added = true
                   /\ (item_yields (key, value) = true -> added <> [])).
    { unfold item_yields, is_logical_key in *. cbn [fst snd] in *.
      destruct (key =? "$not").
      - apply bind_Ok_inv in Hadded. destruct Hadded as [c [Hc Hadded]].
        injection Hadded as <-. split; [ | discriminate ].
        simpl. rewrite (Hkv _ _ Hop Hc). reflexivity.
      - destruct (key =? "$and").
        + apply bind_Ok_inv in Hadded. destruct Hadded as [c [Hc Hadded]].
          injection Hadded as <-. split; [ | discriminate ].
          simpl. rewrite (Hkv _ _ Hop Hc). reflexivity.
        + destruct (key =? "$or").
          * apply bind_Ok_inv in Hadded. destruct Hadded as [c [Hc Hadded]].
            injection Hadded as <-. split; [ | discriminate ].
            simpl. rewrite (Hkv _ _ Hop Hc). reflexivity.
          * injection Hadded as <-. split.
            -- apply comparisons_logical_nonempty.
            -- simpl. destruct (ComparisonOperation_parse key value);
                 [ discriminate | discriminate ]. }
    destruct Hadd as [Hall Hne]. split.
    + rewrite forallb_app, Hall, IHall. reflexivity.
    + cbn [existsb]. intros Hex. apply orb_true_iff in Hex.
      apply app_not_nil. destruct Hex as [Hex | Hex]; auto.
Qed.

(** The same for the mappings of a list. *)
Lemma parse_items_nonempty (l : list pyval) :
  Forall (fun x => match x with
                   | PDict item =>
                       Forall (fun kv => forall cls T,
                                   operands_nonempty (snd kv) = true ->
                                   parse_cls cls (snd kv) = Ok T ->
                                   logical_nonempty T = true) item
                   | _ => True
                   end) l ->
  forall cs,
    forallb (fun x =>
               match x with
               | PDict item =>
                   forallb (fun kv => if is_logical_key (fst kv)
                                      then operands_nonempty (snd kv)
                                      else true) item
               | _ => true
               end) l = true ->
    parse_items parse_cls l = Ok cs ->
    forallb logical_nonempty cs = true
    /\ (existsb (fun x => match x with
                          | PDict item => existsb item_yields item
                          | _ => false
                          end) l = true -> cs <> []).
Proof.
  induction 1 as [ | x l Hx _ IH ]; intros cs Hops Hparse.
  - injection Hparse as <-. split; [ reflexivity | discriminate ].
  - cbn [forallb] in Hops. apply andb_true_iff in Hops.
    destruct Hops as [Hop Hops].
    destruct x as [ | b | z | y | s | l' | item ]; try discriminate Hparse.
    cbn [parse_items] in Hparse.
    apply bind_Ok_inv in Hparse. destruct Hparse as [added [Hadded Hparse]].
    apply bind_Ok_inv in Hparse. destruct Hparse as [rest [Hrest Hparse]].
    injection Hparse as <-.
    destruct (IH rest Hops Hrest) as [IHall IHne].
    destruct (parse_item_nonempty Hx Hop Hadded) as [Hall Hne].
    split.
    + rewrite forallb_app, Hall, IHall. reflexivity.
    + cbn [existsb]. intros Hex. apply orb_true_iff in Hex.
      apply app_not_nil. destruct Hex as [Hex | Hex]; auto.
Qed.

Lemma parse_cls_nonempty (filter_term : pyval) :
  match filter_term with
  | PDict item =>
      Forall (fun kv => forall cls T,
                  operands_nonempty (snd kv) = true ->
                  parse_cls cls (snd kv) = Ok T ->
                  logical_nonempty T = true) item
  | _ => True
  end
  /\ (forall cls T,
         operands_nonempty filter_term = true ->
         parse_cls cls filter_term = Ok T ->
         logical_nonempty T = true).
Proof.
  induction filter_term as [ | b | z | x | s | l IH | item IH ]
    using pyval_nested_ind;
    try (split; [ exact I | intros cls T H; discriminate H ]).
  - split; [ exact I | ].
    intros cls T Hops Hparse.
    cbn [operands_nonempty] in Hops. apply andb_true_iff in Hops.
    destruct Hops as [Hyield Hops].
    cbn [parse_cls] in Hparse.
    apply bind_Ok_inv in Hparse. destruct Hparse as [cs [Hcs Hparse]].
    injection Hparse as <-.
    assert (Hl : Forall (fun x => match x with
                                  | PDict item =>
                                      Forall (fun kv => forall cls T,
                                                  operands_nonempty (snd kv) = true ->
                                                  parse_cls cls (snd kv) = Ok T ->
                                                  logical_nonempty T = true) item
                                  | _ => True
                                  end) l).
    { clear - IH. induction IH as [ | x l Hx _ IHl ]; constructor.
      - destruct x; try exact I. exact (proj1 Hx).
      - exact IHl. }
    destruct (parse_items_nonempty Hl Hops Hcs) as [Hall Hne].
    apply parse_return_nonempty; [ apply Hne; exact Hyield | exact Hall ].
  - assert (Hitem : Forall (fun kv => forall cls T,
                                operands_nonempty (snd kv) = true ->
                                parse_cls cls (snd kv) = Ok T ->
                                logical_nonempty T = true) item).
    { clear - IH. induction IH as [ | kv item Hkv _ IHitem ]; constructor.
      - exact (proj2 Hkv).
      - exact IHitem. }
    split; [ exact Hitem | ].
    intros cls T Hops Hparse.
    cbn [operands_nonempty] in Hops. apply andb_true_iff in Hops.
    destruct Hops as [Hyield Hops].
    cbn [parse_cls] in Hparse.
    apply bind_Ok_inv in Hparse. destruct Hparse as [cs [Hcs Hparse]].
    injection Hparse as <-.
    destruct (parse_item_nonempty Hitem Hops Hcs) as [Hall Hne].
    apply parse_return_nonempty; [ apply Hne; exact Hyield | exact Hall ].
Qed.

(** C6, as the code has it. When the filter and the operand of every logical
    key in it yield at least one condition, every logical clause of the tree
    that [parse] returns has at least one condition. *)
Theorem parse_logical_nonempty (filter_term : pyval) (T : clause) :
  operands_nonempty filter_term = true ->
  parse filter_term = Ok T ->
  logical_nonempty T = true.
Proof.
  intros Hops Hparse.
  exact (proj2 (parse_cls_nonempty filter_term) None T Hops Hparse).
Qed.

Lemma parse_logical_nonempty_witness :
  logical_nonempty
    (Logical OrOperation
       [Logical AndOperation
          [Comparison EqOperation "Type" (PStr "News Paper");
           Comparison LtOperation "Date" (PStr "2019-01-01")];
        Logical NotOperation
          [Comparison InOperation "genre" (PList [PStr "economy"])]])
  = true.
Proof.
  apply (@parse_logical_nonempty
           (PDict [("$or",
                    PList [PDict [("$and",
                                   PDict [("Type", PStr "News Paper");
                                          ("Date",
                                           PDict [("$lt", PStr "2019-01-01")])])];
                           PDict [("$not",
                                   PDict [("genre",
                                           PList [PStr "economy"])])]])])).
  - reflexivity.
  - reflexivity.
Defined.

(** C6, as stated, fails: [{"$and": {}}] is parsed without an error, to an
    And without conditions, and so is the empty filter. *)
Lemma empty_and_counterexample :
  parse empty_and_filter = Ok (Logical AndOperation [])
  /\ logical_nonempty (Logical AndOperation []) = false
  /\ parse (PDict []) = Ok (Logical AndOperation []).
Proof.
  repeat split.
Qed.

(** * Further properties *)

(** ** Parsing: the loop over the items *)

Lemma parse_item_cons
  (P : option LogicalFilterClause -> pyval -> result clause)
  (key : string) (value : pyval) (r : pydict) :
  parse_item P ((key, value) :: r)
  = (added <- key_conditions P key value ;;
     rest <- parse_item P r ;;
     Ok (added ++ rest)).
Proof. reflexivity. Qed.

Lemma key_conditions_field
  (P : option LogicalFilterClause -> pyval -> result clause)
  (key : string) (value : pyval) :
  is_logical_key key = false ->
  key_conditions P key value = Ok (ComparisonOperation_parse key value).
Proof.
  unfold is_logical_key, key_conditions. intros H.
  apply orb_false_iff in H. destruct H as [H Hor].
  apply orb_false_iff in H. destruct H as [Hnot Hand].
  rewrite Hnot, Hand, Hor. reflexivity.
Qed.


Lemma parse_item_app
  (P : option LogicalFilterClause -> pyval -> result clause)
  (d1 d2 : pydict) :
  parse_item P (d1 ++ d2)
  = (a <- parse_item P d1 ;; b <- parse_item P d2 ;; Ok (a ++ b)).
Proof.
  induction d1 as [ | [key value] d1 IH ].
  - cbn [app parse_item bind]. destruct (parse_item P d2); reflexivity.
  - cbn [app]. rewrite !parse_item_cons, IH.
    destruct (key_conditions P key value) as [ added | e ]; cbn [bind];
      [ | reflexivity ].
    destruct (parse_item P d1) as [ a | e ]; cbn [bind]; [ | reflexivity ].
    destruct (parse_item P d2) as [ b | e ]; cbn [bind]; [ | reflexivity ].
    rewrite app_assoc. reflexivity.
Qed.

(** X1. A field given a bare value is parsed as the field given that value
    under the default operator, ["$in"] for a list and ["$eq"] for any other
    value that is not a mapping, wherever the field stands in the mapping
    and whatever class parses it. *)
Theorem default_operator_equivalence (cls : option LogicalFilterClause)
  (before after : pydict) (key : string) (value : pyval) :
  is_logical_key key = false ->
  isinstance_dict value = false ->
  parse_cls cls (PDict (before ++ (key, value) :: after))
  = parse_cls cls
      (PDict (before
              ++ (key, PDict [(if isinstance_list value then "$in" else "$eq",
                               value)])
              :: after)).
Proof.
  intros Hkey Hdict. cbn [parse_cls].
  rewrite !parse_item_app, !parse_item_cons, !(key_conditions_field _ _ _ Hkey).
  assert (Hcmp : ComparisonOperation_parse key value
                 = ComparisonOperation_parse key
                     (PDict [(if isinstance_list value then "$in" else "$eq",
                              value)])).
  { destruct value; try reflexivity. discriminate Hdict. }
  rewrite <- Hcmp. reflexivity.
Qed.

Lemma default_operator_equivalence_witness :
  parse_cls None
    (PDict ([("type", PStr "article")]
            ++ ("genre", PList [PStr "economy"; PStr "politics"])
            :: [("rating", PDict [("$gte", PInt 3)])]))
  = parse_cls None
      (PDict ([("type", PStr "article")]
              ++ ("genre",
                  PDict [(if isinstance_list
                               (PList [PStr "economy"; PStr "politics"])
                          then "$in" else "$eq",
                          PList [PStr "economy"; PStr "politics"])])
              :: [("rating", PDict [("$gte", PInt 3)])])).
Proof.
  apply default_operator_equivalence; reflexivity.
Defined.

(** X2. A comparison operator key that [ComparisonOperation.parse] does not
    know is dropped without an error: the clause parses as it does without
    that key. *)
Theorem unknown_operator_ignored (field_name operation : string)
  (value : pyval) (before after : pydict) :
  comparison_class operation = None ->
  ComparisonOperation_parse field_name
    (PDict (before ++ (operation, value) :: after))
  = ComparisonOperation_parse field_name (PDict (before ++ after)).
Proof.
  intros Hop. cbn [ComparisonOperation_parse].
  induction before as [ | [op v] before IH ]; cbn [app parse_comparison_items].
  - rewrite Hop. reflexivity.
  - rewrite IH. reflexivity.
Qed.

Lemma unknown_operator_ignored_witness :
  ComparisonOperation_parse "rating"
    (PDict ([("$gte", PInt 3)] ++ ("$between", PInt 4) :: [("$lt", PInt 9)]))
  = ComparisonOperation_parse "rating"
      (PDict ([("$gte", PInt 3)] ++ [("$lt", PInt 9)])).
Proof.
  apply unknown_operator_ignored. reflexivity.
Defined.


(** ** Parsing: the terms that parse *)





(** ** Inversion: what it keeps *)

Lemma invert_has_no_not (c : clause) : not_free (invert c) = true.
Proof.
  induction c as [ cls cs IH | cls f v ] using clause_nested_ind.
  - assert (Hall : forallb not_free (map invert cs) = true).
    { induction IH as [ | a cs Ha _ IHcs ]; simpl.
      - reflexivity.
      - rewrite Ha, IHcs. reflexivity. }
    destruct cls; exact Hall.
  - destruct cls; reflexivity.
Qed.

(** X5. The inversion of any clause has no Not in it, at any depth. *)
Theorem invert_not_free (c : clause) : not_free (invert c) = true.
Proof.
  apply invert_has_no_not.
Qed.

(** X6. Inverting three times is inverting once: on the image of [invert]
    the double inversion is the identity, also for clauses with a Not. *)
Theorem invert_thrice (c : clause) : invert (invert (invert c)) = invert c.
Proof.
  rewrite invert_invert. apply not_to_and_not_free. apply invert_has_no_not.
Qed.

(** X7. Inversion keeps the shape of a clause: the same comparisons on the
    same fields with the same values, in the same order, and the same
    nesting depth. *)
Theorem invert_keeps_comparisons (c : clause) :
  comparisons (invert c) = comparisons c /\ depth (invert c) = depth c.
Proof.
  split; [ | apply depth_invert ].
  induction c as [ cls cs IH | cls f v ] using clause_nested_ind.
  - assert (Hall : flat_map comparisons (map invert cs)
                   = flat_map comparisons cs).
    { induction IH as [ | a cs Ha _ IHcs ]; simpl.
      - reflexivity.
      - rewrite Ha, IHcs. reflexivity. }
    destruct cls; exact Hall.
  - destruct cls; reflexivity.
Qed.

(** ** Elasticsearch: when the emitter returns *)

Lemma mapM_all_or_raise (A B : Type) (f : A -> result B) (p : A -> bool)
  (e : exn) (l : list A) :
  Forall (fun a => if p a then exists b, f a = Ok b else f a = Raise e) l ->
  if forallb p l then exists bs, mapM f l = Ok bs else mapM f l = Raise e.
Proof.
  induction 1 as [ | a l Ha _ IH ]; cbn [forallb mapM].
  - exists []. reflexivity.
  - destruct (p a); cbn [andb].
    + destruct Ha as [b ->]. cbn [bind]. destruct (forallb p l).
      * destruct IH as [bs ->]. eexists. reflexivity.
      * rewrite IH. reflexivity.
    + rewrite Ha. reflexivity.
Qed.

Lemma emitted_shapes (cs : list clause) (ds : list pydict) :
  mapM convert_to_elasticsearch cs = Ok ds ->
  Forall (fun d => has_range d = true ->
                   exists f op v, d = range_clause (f, [(op, v)])) ds.
Proof.
  intros Hds. apply mapM_Ok_Forall2 in Hds.
  induction Hds as [ | c d cs ds Hc _ IH ]; constructor.
  - exact (emitted_range_shape c Hc).
  - exact IH.
Qed.

(** X8. The Elasticsearch emitter returns a query exactly for the clauses
    whose comparisons all have a list with a list operator and another
    value with the other operators; on every other clause it raises
    [AssertionError], and it raises nothing else. *)
Theorem elasticsearch_defined (c : clause) :
  if arity_respected c
  then exists d, convert_to_elasticsearch c = Ok d
  else convert_to_elasticsearch c = Raise AssertionError.
Proof.
  induction c as [ cls cs IH | cls f v ] using clause_nested_ind.
  - cbn [arity_respected convert_to_elasticsearch].
    pose proof (mapM_all_or_raise convert_to_elasticsearch arity_respected
                  AssertionError IH) as Hmap.
    destruct (forallb arity_respected cs).
    + destruct Hmap as [ds Hds]. rewrite Hds. cbn [bind].
      rewrite (merge_emitted (emitted_shapes _ Hds)). cbn [bind].
      eexists. reflexivity.
    + rewrite Hmap. reflexivity.
  - destruct cls; destruct v; cbn; try (eexists; reflexivity); reflexivity.
Qed.

(** ** Elasticsearch: what the range merge keeps *)

Lemma dict_get_not_mem (key : string) (d : pydict) :
  dict_mem key d = false -> dict_get key d = None.
Proof.
  induction d as [ | [k x] d IH ]; simpl; intros H.
  - reflexivity.
  - destruct (k =? key); [ discriminate H | exact (IH H) ].
Qed.

Lemma nested_set_keys (f op : string) (v : pyval) (d : list (string * pydict))
  (x : string) :
  In x (map fst (nested_set f op v d)) <-> In x (map fst d) \/ x = f.
Proof.
  induction d as [ | [k ops] d IH ]; simpl.
  - intuition congruence.
  - destruct (String.eqb_spec k f) as [ -> | Hk ]; simpl.
    + intuition congruence.
    + rewrite IH. tauto.
Qed.

Lemma nested_set_NoDup (f op : string) (v : pyval)
  (d : list (string * pydict)) :
  NoDup (map fst d) -> NoDup (map fst (nested_set f op v d)).
Proof.
  induction d as [ | [k ops] d IH ]; simpl; intros H.
  - constructor; [ intros [] | constructor ].
  - destruct (String.eqb_spec k f) as [ -> | Hk ]; simpl.
    + exact H.
    + inversion H as [ | k' r Hnotin Hr ]; subst. constructor.
      * rewrite nested_set_keys. intros [Hin | Heq]; [ tauto | congruence ].
      * apply IH. exact Hr.
Qed.

Lemma merged_ranges_NoDup (es : list (string * string * pyval)) :
  NoDup (map fst (merged_ranges es)).
Proof.
  unfold merged_ranges.
  assert (H : forall d, NoDup (map fst d) ->
                NoDup (map fst
                         (fold_left
                            (fun d e => nested_set (fst (fst e)) (snd (fst e))
                                          (snd e) d) es d))).
  { induction es as [ | e es IH ]; intros d Hd.
    - exact Hd.
    - cbn [fold_left]. apply IH. apply nested_set_NoDup. exact Hd. }
  apply H. constructor.
Qed.

Lemma range_fields_no_range (ds : list pydict) :
  range_fields (filter (fun d => negb (has_range d)) ds) = [].
Proof.
  unfold range_fields.
  induction ds as [ | d ds IH ]; cbn [filter].
  - reflexivity.
  - destruct (has_range d) eqn:Hd; cbn [negb].
    + exact IH.
    + cbn [flat_map]. unfold has_range in Hd.
      rewrite (dict_get_not_mem _ _ Hd). exact IH.
Qed.

Lemma range_fields_merged (d : list (string * pydict)) :
  range_fields (map range_clause d) = map fst d.
Proof.
  unfold range_fields.
  induction d as [ | item d IH ]; cbn.
  - reflexivity.
  - f_equal. exact IH.
Qed.

(** X9. After the range merge of the clauses emitted by the conditions of a
    logical clause, no two range clauses of the list are on the same
    field. *)
Theorem merged_fields_distinct (cs : list clause) (ds ms : list pydict) :
  mapM convert_to_elasticsearch cs = Ok ds ->
  _merge_es_range_queries ds = Ok ms ->
  NoDup (range_fields ms).
Proof.
  intros Hds Hms.
  rewrite (merge_emitted (emitted_shapes _ Hds)) in Hms.
  injection Hms as <-.
  unfold range_fields. rewrite flat_map_app.
  fold (range_fields (filter (fun d => negb (has_range d)) ds)).
  fold (range_fields (map range_clause (merged_ranges (range_entries ds)))).
  rewrite range_fields_no_range, range_fields_merged.
  apply merged_ranges_NoDup.
Qed.

Lemma merged_fields_distinct_witness :
  NoDup (range_fields
           [[("term", PDict [("type", PStr "article")])];
            [("range", PDict [("date", PDict [("gte", PStr "2015-01-01");
                                              ("lt", PStr "2021-01-01")])])];
            [("range", PDict [("rating", PDict [("gte", PInt 3)])])]]).
Proof.
  apply (@merged_fields_distinct
           [Comparison GteOperation "date" (PStr "2015-01-01");
            Comparison EqOperation "type" (PStr "article");
            Comparison GteOperation "rating" (PInt 3);
            Comparison LtOperation "date" (PStr "2021-01-01")]
           [[("range", PDict [("date", PDict [("gte", PStr "2015-01-01")])])];
            [("term", PDict [("type", PStr "article")])];
            [("range", PDict [("rating", PDict [("gte", PInt 3)])])];
            [("range", PDict [("date", PDict [("lt", PStr "2021-01-01")])])]]).
  - reflexivity.
  - reflexivity.
Defined.

Lemma dict_get_set (op op' : string) (v : pyval) (ops : pydict) :
  dict_get op (dict_set op' v ops)
  = if op' =? op then Some v else dict_get op ops.
Proof.
  induction ops as [ | [k x] ops IH ]; simpl.
  - reflexivity.
  - destruct (String.eqb_spec k op') as [ -> | Hk ]; simpl.
    + destruct (op' =? op); reflexivity.
    + rewrite IH.
      destruct (String.eqb_spec k op) as [ -> | Hko ];
        destruct (String.eqb_spec op' op) as [ -> | Hoo ];
        try reflexivity.
      congruence.
Qed.

Lemma nested_get_set (f op f' op' : string) (v : pyval)
  (d : list (string * pydict)) :
  nested_get f op (nested_set f' op' v d)
  = if (f' =? f) && (op' =? op) then Some v else nested_get f op d.
Proof.
  induction d as [ | [k ops] d IH ]; simpl.
  - destruct (f' =? f); destruct (op' =? op); reflexivity.
  - destruct (String.eqb_spec k f') as [ -> | Hk ]; simpl.
    + rewrite dict_get_set.
      destruct (f' =? f); destruct (op' =? op); reflexivity.
    + rewrite IH.
      destruct (String.eqb_spec k f) as [ -> | Hkf ];
        destruct (String.eqb_spec f' f) as [ -> | Hff ];
        try reflexivity.
      congruence.
Qed.

Lemma nested_get_absent (f op : string) (d : list (string * pydict)) :
  ~ In f (map fst d) -> nested_get f op d = None.
Proof.
  induction d as [ | [k ops] d IH ]; simpl; intros H.
  - reflexivity.
  - destruct (String.eqb_spec k f) as [ -> | Hk ]; [ tauto | ].
    apply IH. tauto.
Qed.

(** The value found in the entries read from the clauses: the last entry on
    the field and operator. *)
Lemma merged_ranges_get (f op : string) (es : list (string * string * pyval)) :
  nested_get f op (merged_ranges es)
  = fold_left (fun found e =>
                 if (fst (fst e) =? f) && (snd (fst e) =? op)
                 then Some (snd e) else found) es None.
Proof.
  unfold merged_ranges.
  change (@None pyval) with (nested_get f op []).
  generalize (@nil (string * pydict)).
  induction es as [ | e es IH ]; intros d.
  - reflexivity.
  - cbn [fold_left]. rewrite IH, nested_get_set. reflexivity.
Qed.

Lemma clause_value_no_range (f op : string) (d : pydict) :
  has_range d = false -> clause_value f op d = None.
Proof.
  intros H. unfold clause_value. unfold has_range in H.
  rewrite (dict_get_not_mem _ _ H). reflexivity.
Qed.

Lemma clause_value_range_clause (f op : string) (item : string * pydict) :
  clause_value f op (range_clause item)
  = if fst item =? f then dict_get op (snd item) else None.
Proof.
  unfold clause_value, range_clause. cbn.
  destruct (fst item =? f); reflexivity.
Qed.

Lemma range_value_emitted (f op : string) (ds : list pydict) :
  Forall (fun d => has_range d = true ->
                   exists f' op' v, d = range_clause (f', [(op', v)])) ds ->
  forall found,
    fold_left (fun found d =>
                 match clause_value f op d with
                 | Some v => Some v
                 | None => found
                 end) ds found
    = fold_left (fun found e =>
                   if (fst (fst e) =? f) && (snd (fst e) =? op)
                   then Some (snd e) else found) (range_entries ds) found.
Proof.
  induction 1 as [ | d ds Hd _ IH ]; intros found.
  - reflexivity.
  - unfold range_entries in *. cbn [fold_left flat_map].
    rewrite fold_left_app, IH.
    destruct (has_range d) eqn:Hr.
    + destruct (Hd eq_refl) as [f' [op' [v ->]]].
      rewrite clause_value_range_clause. cbn.
      destruct (f' =? f); destruct (op' =? op); reflexivity.
    + rewrite (clause_value_no_range _ _ _ Hr).
      assert (Hnone : range_entry d = []).
      { unfold range_entry. unfold has_range in Hr.
        rewrite (dict_get_not_mem _ _ Hr). reflexivity. }
      rewrite Hnone. reflexivity.
Qed.

Lemma range_value_no_range (f op : string) (ds : list pydict) (found : option pyval) :
  fold_left (fun found d =>
               match clause_value f op d with
               | Some v => Some v
               | None => found
               end) (filter (fun d => negb (has_range d)) ds) found
  = found.
Proof.
  revert found. induction ds as [ | d ds IH ]; intros found; cbn [filter].
  - reflexivity.
  - destruct (has_range d) eqn:Hr; cbn [negb].
    + apply IH.
    + cbn [fold_left]. rewrite (clause_value_no_range _ _ _ Hr). apply IH.
Qed.

Lemma range_value_merged (f op : string) (d : list (string * pydict)) :
  NoDup (map fst d) ->
  forall found,
    fold_left (fun found c =>
                 match clause_value f op c with
                 | Some v => Some v
                 | None => found
                 end) (map range_clause d) found
    = match nested_get f op d with
      | Some v => Some v
      | None => found
      end.
Proof.
  induction d as [ | [k ops] d IH ]; intros Hnd found.
  - reflexivity.
  - cbn [map fold_left]. inversion Hnd as [ | k' r Hnotin Hr ]; subst.
    rewrite (IH Hr), clause_value_range_clause. cbn [fst snd nested_get].
    destruct (String.eqb_spec k f) as [ -> | Hk ].
    + rewrite (nested_get_absent _ _ _ Hnotin). reflexivity.
    + reflexivity.
Qed.

(** X10. The range merge loses no value but an overwritten one: for every
    field and operator, the merged list holds the value that the last range
    clause on that field and operator held before the merge, and none when
    there was no such clause. *)
Theorem merge_keeps_last_values (cs : list clause) (ds ms : list pydict)
  (field_name operation : string) :
  mapM convert_to_elasticsearch cs = Ok ds ->
  _merge_es_range_queries ds = Ok ms ->
  range_value field_name operation ms = range_value field_name operation ds.
Proof.
  intros Hds Hms.
  pose proof (emitted_shapes _ Hds) as Hshape.
  rewrite (merge_emitted Hshape) in Hms. injection Hms as <-.
  unfold range_value.
  rewrite fold_left_app, range_value_no_range.
  rewrite (@range_value_merged field_name operation _ (merged_ranges_NoDup _)).
  rewrite merged_ranges_get, (@range_value_emitted field_name operation _ Hshape).
  destruct (fold_left _ (range_entries ds) None); reflexivity.
Qed.

Lemma merge_keeps_last_values_witness :
  range_value "date" "gte"
    [[("term", PDict [("type", PStr "article")])];
     [("range", PDict [("date", PDict [("gte", PStr "2019-01-01");
                                       ("lt", PStr "2021-01-01")])])]]
  = range_value "date" "gte"
      [[("range", PDict [("date", PDict [("gte", PStr "2015-01-01")])])];
       [("term", PDict [("type", PStr "article")])];
       [("range", PDict [("date", PDict [("lt", PStr "2021-01-01")])])];
       [("range", PDict [("date", PDict [("gte", PStr "2019-01-01")])])]].
Proof.
  apply (@merge_keeps_last_values
           [Comparison GteOperation "date" (PStr "2015-01-01");
            Comparison EqOperation "type" (PStr "article");
            Comparison LtOperation "date" (PStr "2021-01-01");
            Comparison GteOperation "date" (PStr "2019-01-01")]).
  - reflexivity.
  - reflexivity.
Defined.

(** ** Weaviate: when the emitter returns *)

Lemma mapM_defined (A B : Type) (f : A -> result B) (p : A -> bool)
  (l : list A) :
  Forall (fun a => if p a then exists b, f a = Ok b
                   else exists e, f a = Raise e) l ->
  if forallb p l then exists bs, mapM f l = Ok bs
  else exists e, mapM f l = Raise e.
Proof.
  induction 1 as [ | a l Ha _ IH ]; cbn [forallb mapM].
  - exists []. reflexivity.
  - destruct (p a); cbn [andb].
    + destruct Ha as [b ->]. cbn [bind]. destruct (forallb p l).
      * destruct IH as [bs ->]. eexists. reflexivity.
      * destruct IH as [e ->]. eexists. reflexivity.
    + destruct Ha as [e ->]. eexists. reflexivity.
Qed.

Lemma get_weaviate_datatype_default (convert_date : string -> option string)
  (comparison_value : pyval) :
  if is_scalar_value comparison_value
  then exists typed,
      _get_weaviate_datatype convert_date comparison_value PNone = Ok typed
      /\ is_scalar_value (snd typed) = true
  else exists e,
      _get_weaviate_datatype convert_date comparison_value PNone = Raise e.
Proof.
  destruct comparison_value as [ | b | z | x | s | l | d ]; cbn;
    try (eexists; split; reflexivity);
    try (eexists; reflexivity).
  destruct (convert_date s); eexists; split; reflexivity.
Qed.

Lemma get_weaviate_datatype_element (convert_date : string -> option string)
  (values : list pyval) (value : pyval) :
  if is_scalar_value value
  then exists typed,
      _get_weaviate_datatype convert_date (PList values) value = Ok typed
      /\ is_scalar_value (snd typed) = true
  else _get_weaviate_datatype convert_date (PList values) value
       = Raise (match value with
                | PNone => AssertionError
                | _ => ValueError
                end).
Proof.
  destruct value as [ | b | z | x | s | l | d ]; cbn;
    try (eexists; split; reflexivity);
    try reflexivity.
  destruct (convert_date s); eexists; split; reflexivity.
Qed.

Lemma scalar_not_list (v : pyval) :
  is_scalar_value v = true -> isinstance_list v = false.
Proof.
  destruct v; try discriminate; reflexivity.
Qed.

Lemma comparison_to_weaviate_defined (convert_date : string -> option string)
  (cls : ComparisonOperation) (f : string) (v : pyval) :
  if weaviate_value cls v
  then exists d, comparison_to_weaviate convert_date cls f v = Ok d
  else exists e, comparison_to_weaviate convert_date cls f v = Raise e.
Proof.
  assert (Hscalar : forall operator again,
             if is_scalar_value v
             then exists d,
                 scalar_to_weaviate convert_date operator again f v = Ok d
             else exists e,
                 scalar_to_weaviate convert_date operator again f v = Raise e).
  { intros operator again. unfold scalar_to_weaviate.
    pose proof (get_weaviate_datatype_default convert_date v) as Hget.
    destruct (is_scalar_value v).
    - destruct Hget as [typed [-> Htyped]]. cbn [bind].
      rewrite (scalar_not_list _ Htyped).
      destruct again; eexists; reflexivity.
    - destruct Hget as [e ->]. eexists. reflexivity. }
  assert (Hlist : forall outer operator,
             if match v with
                | PList values => forallb is_scalar_value values
                | _ => false
                end
             then exists d,
                 list_to_weaviate convert_date outer operator f v = Ok d
             else exists e,
                 list_to_weaviate convert_date outer operator f v = Raise e).
  { intros outer operator. unfold list_to_weaviate.
    destruct v as [ | b | z | x | s | values | d ];
      try (eexists; reflexivity).
    cbn [isinstance_list py_assert bind].
    assert (Hall : Forall
                     (fun value =>
                        if is_scalar_value value
                        then exists b,
                            (typed <- _get_weaviate_datatype convert_date
                                        (PList values) value ;;
                             Ok (weaviate_comparison f operator typed)) = Ok b
                        else exists e,
                            (typed <- _get_weaviate_datatype convert_date
                                        (PList values) value ;;
                             Ok (weaviate_comparison f operator typed))
                            = Raise e) values).
    { apply Forall_forall. intros value _.
      pose proof (get_weaviate_datatype_element convert_date values value)
        as Hget.
      destruct (is_scalar_value value).
      - destruct Hget as [typed [-> _]]. eexists. reflexivity.
      - rewrite Hget. eexists. reflexivity. }
    pose proof (mapM_defined _ _ Hall) as Hmap.
    destruct (forallb is_scalar_value values).
    - destruct Hmap as [operands ->]. eexists. reflexivity.
    - destruct Hmap as [e ->]. eexists. reflexivity. }
  destruct cls; cbn [comparison_to_weaviate weaviate_value list_operator];
    first [ apply Hscalar | apply Hlist ].
Qed.

Lemma convert_to_weaviate_comparison (convert_date : string -> option string)
  (cls : ComparisonOperation) (f : string) (v : pyval) :
  convert_to_weaviate convert_date (Comparison cls f v)
  = comparison_to_weaviate convert_date cls f v.
Proof. reflexivity. Qed.

Lemma weaviate_values_invert (c : clause) :
  weaviate_values (invert c) = weaviate_values c.
Proof.
  induction c as [ cls cs IH | cls f v ] using clause_nested_ind.
  - assert (Hall : forallb weaviate_values (map invert cs)
                   = forallb weaviate_values cs).
    { induction IH as [ | a cs Ha _ IHcs ]; simpl.
      - reflexivity.
      - rewrite Ha, IHcs. reflexivity. }
    destruct cls; exact Hall.
  - destruct cls; reflexivity.
Qed.

Lemma not_free_conditions (cls : LogicalFilterClause) (cs : list clause) :
  not_free (Logical cls cs) = true ->
  cls <> NotOperation /\ Forall (fun x => not_free x = true) cs.
Proof.
  destruct cls; cbn [not_free]; intros H; try discriminate H;
    (split; [ discriminate | apply Forall_forall; intros x Hx;
                             exact (proj1 (forallb_forall _ _) H x Hx) ]).
Qed.

(** Without a Not, the emitter returns exactly when the values are typed. *)
Lemma weaviate_defined_not_free (convert_date : string -> option string)
  (c : clause) :
  not_free c = true ->
  if weaviate_values c
  then exists d, convert_to_weaviate convert_date c = Ok d
  else exists e, convert_to_weaviate convert_date c = Raise e.
Proof.
  induction c as [ cls cs IH | cls f v ] using clause_nested_ind; intros Hnf.
  - destruct (not_free_conditions _ _ Hnf) as [Hcls Hcs].
    assert (Hall : Forall
                     (fun x => if weaviate_values x
                               then exists d,
                                   convert_to_weaviate convert_date x = Ok d
                               else exists e,
                                   convert_to_weaviate convert_date x
                                   = Raise e) cs).
    { rewrite Forall_forall in IH, Hcs. apply Forall_forall.
      intros x Hx. exact (IH x Hx (Hcs x Hx)). }
    pose proof (mapM_defined _ _ Hall) as Hmap.
    cbn [weaviate_values].
    destruct cls; [ congruence | | ].
    + rewrite convert_to_weaviate_and.
      destruct (forallb weaviate_values cs).
      * destruct Hmap as [ds ->]. eexists. reflexivity.
      * destruct Hmap as [e ->]. eexists. reflexivity.
    + rewrite convert_to_weaviate_or.
      destruct (forallb weaviate_values cs).
      * destruct Hmap as [ds ->]. eexists. reflexivity.
      * destruct Hmap as [e ->]. eexists. reflexivity.
  - rewrite convert_to_weaviate_comparison.
    apply comparison_to_weaviate_defined.
Qed.

Lemma weaviate_inverted_defined (convert_date : string -> option string)
  (cs : list clause) :
  if forallb weaviate_values cs
  then exists ds,
      mapM (fun x => convert_to_weaviate convert_date (invert x)) cs = Ok ds
  else exists e,
      mapM (fun x => convert_to_weaviate convert_date (invert x)) cs = Raise e.
Proof.
  apply mapM_defined. apply Forall_forall. intros x _.
  pose proof (weaviate_defined_not_free convert_date (invert x)
                (invert_has_no_not x)) as H.
  rewrite weaviate_values_invert in H. exact H.
Qed.

(** X11. The Weaviate emitter returns a filter exactly for the clauses whose
    comparisons have typed values (a string, integer, float or boolean with
    a scalar operator, a list of them with a list operator) and whose Not
    clauses, those not under another Not, have at least one condition.  On
    every other clause it raises an exception.  The date conversion has no
    part in this. *)
Theorem weaviate_defined (convert_date : string -> option string)
  (c : clause) :
  if weaviate_emittable c
  then exists d, convert_to_weaviate convert_date c = Ok d
  else exists e, convert_to_weaviate convert_date c = Raise e.
Proof.
  induction c as [ cls cs IH | cls f v ] using clause_nested_ind.
  - pose proof (mapM_defined _ _ IH) as Hmap.
    destruct cls.
    + rewrite convert_to_weaviate_not. cbn [weaviate_emittable].
      pose proof (weaviate_inverted_defined convert_date cs) as Hinv.
      destruct cs as [ | x cs ].
      * eexists. reflexivity.
      * destruct (forallb weaviate_values (x :: cs)).
        -- destruct Hinv as [ds Hds]. rewrite Hds. cbn [bind].
           pose proof (mapM_Ok_length _ _ Hds) as Hlen.
           destruct ds as [ | d ds ]; [ discriminate Hlen | ].
           destruct (Nat.ltb 1 (List.length (d :: ds)));
             eexists; reflexivity.
        -- destruct Hinv as [e ->]. eexists. reflexivity.
    + rewrite convert_to_weaviate_and. cbn [weaviate_emittable].
      destruct (forallb weaviate_emittable cs).
      * destruct Hmap as [ds ->]. eexists. reflexivity.
      * destruct Hmap as [e ->]. eexists. reflexivity.
    + rewrite convert_to_weaviate_or. cbn [weaviate_emittable].
      destruct (forallb weaviate_emittable cs).
      * destruct Hmap as [ds ->]. eexists. reflexivity.
      * destruct Hmap as [e ->]. eexists. reflexivity.
  - rewrite convert_to_weaviate_comparison.
    apply comparison_to_weaviate_defined.
Qed.

(** ** Weaviate: the exceptions *)

Lemma bind_Ok_Raise (A B : Type) (m : result A) (g : A -> B) (e : exn) :
  (a <- m ;; Ok (g a)) = Raise e -> m = Raise e.
Proof.
  destruct m as [ a | e' ]; cbn [bind]; intros H;
    [ discriminate H | injection H as ->; reflexivity ].
Qed.

Lemma weaviate_raises_not_free (convert_date : string -> option string)
  (c : clause) (e : exn) :
  not_free c = true ->
  convert_to_weaviate convert_date c = Raise e ->
  e = AssertionError \/ e = ValueError.
Proof.
  induction c as [ cls cs IH | cls f v ] using clause_nested_ind;
    intros Hnf Hraise.
  - destruct (not_free_conditions _ _ Hnf) as [Hcls Hcs].
    rewrite Forall_forall in IH, Hcs.
    assert (Hmap : mapM (convert_to_weaviate convert_date) cs = Raise e).
    { destruct cls; [ congruence | | ].
      - rewrite convert_to_weaviate_and in Hraise.
        exact (bind_Ok_Raise _ _ Hraise).
      - rewrite convert_to_weaviate_or in Hraise.
        exact (bind_Ok_Raise _ _ Hraise). }
    apply mapM_Raise_In in Hmap. destruct Hmap as [x [Hx Hxe]].
    exact (IH x Hx (Hcs x Hx) Hxe).
  - rewrite convert_to_weaviate_comparison in Hraise.
    exact (comparison_to_weaviate_raises _ _ _ _ Hraise).
Qed.

Lemma not_free_condition (cls : LogicalFilterClause) (cs : list clause)
  (x : clause) :
  In x cs -> not_free x = false -> not_free (Logical cls cs) = false.
Proof.
  intros Hx Hnf. destruct (not_free (Logical cls cs)) eqn:H; [ | reflexivity ].
  destruct (not_free_conditions _ _ H) as [_ Hcs].
  rewrite Forall_forall in Hcs. rewrite (Hcs x Hx) in Hnf. discriminate Hnf.
Qed.

(** X12. The Weaviate emitter raises [AssertionError], [ValueError] or
    [IndexError] and nothing else, and [IndexError] only on a clause that
    has a Not. *)
Theorem weaviate_exceptions (convert_date : string -> option string)
  (c : clause) (e : exn) :
  convert_to_weaviate convert_date c = Raise e ->
  e = AssertionError \/ e = ValueError
  \/ (e = IndexError /\ not_free c = false).
Proof.
  induction c as [ cls cs IH | cls f v ] using clause_nested_ind;
    intros Hraise.
  - rewrite Forall_forall in IH.
    assert (Hconditions :
             mapM (convert_to_weaviate convert_date) cs = Raise e ->
             e = AssertionError \/ e = ValueError
             \/ (e = IndexError /\ not_free (Logical cls cs) = false)).
    { intros Hmap. apply mapM_Raise_In in Hmap.
      destruct Hmap as [x [Hx Hxe]].
      destruct (IH x Hx Hxe) as [H | [H | [H Hnf]]]; auto.
      right; right. split; [ exact H | ].
      exact (not_free_condition cls cs x Hx Hnf). }
    destruct cls.
    + rewrite convert_to_weaviate_not in Hraise.
      destruct (mapM _ cs) as [ ds | e' ] eqn:Hmap; cbn [bind] in Hraise.
      * destruct (Nat.ltb 1 (List.length ds)); [ discriminate Hraise | ].
        destruct ds; [ | discriminate Hraise ].
        injection Hraise as <-. right; right. split; reflexivity.
      * injection Hraise as ->.
        apply mapM_Raise_In in Hmap. destruct Hmap as [x [_ Hxe]].
        destruct (weaviate_raises_not_free _ _ (invert_has_no_not x) Hxe);
          auto.
    + rewrite convert_to_weaviate_and in Hraise. apply Hconditions.
      exact (bind_Ok_Raise _ _ Hraise).
    + rewrite convert_to_weaviate_or in Hraise. apply Hconditions.
      exact (bind_Ok_Raise _ _ Hraise).
  - rewrite convert_to_weaviate_comparison in Hraise.
    destruct (comparison_to_weaviate_raises _ _ _ _ Hraise); auto.
Qed.

Lemma weaviate_exceptions_witness :
  IndexError = AssertionError \/ IndexError = ValueError
  \/ (IndexError = IndexError
      /\ not_free (Logical AndOperation
                     [Comparison EqOperation "type" (PStr "article");
                      Logical NotOperation []]) = false).
Proof.
  apply (@weaviate_exceptions (fun _ => None)
           (Logical AndOperation
              [Comparison EqOperation "type" (PStr "article");
               Logical NotOperation []])
           IndexError).
  reflexivity.
Defined.

(** X13. A Not clause makes the Weaviate emitter raise [IndexError] exactly
    when it has no condition. *)
Theorem weaviate_empty_not (convert_date : string -> option string)
  (cs : list clause) :
  convert_to_weaviate convert_date (Logical NotOperation cs) = Raise IndexError
  <-> cs = [].
Proof.
  split.
  - intros Hraise. rewrite convert_to_weaviate_not in Hraise.
    destruct (mapM _ cs) as [ ds | e ] eqn:Hmap; cbn [bind] in Hraise.
    + destruct (Nat.ltb 1 (List.length ds)); [ discriminate Hraise | ].
      destruct ds; [ | discriminate Hraise ].
      apply mapM_Ok_length in Hmap. destruct cs; [ reflexivity | ].
      discriminate Hmap.
    + injection Hraise as ->.
      apply mapM_Raise_In in Hmap. destruct Hmap as [x [_ Hxe]].
      destruct (weaviate_raises_not_free _ _ (invert_has_no_not x) Hxe);
        discriminate.
  - intros ->. reflexivity.
Qed.

Lemma mapM_first_raise (A B : Type) (f : A -> result B) (good rest : list A)
  (bad : A) (e : exn) :
  Forall (fun a => exists b, f a = Ok b) good ->
  f bad = Raise e ->
  mapM f (good ++ bad :: rest) = Raise e.
Proof.
  induction 1 as [ | a good Ha _ IH ]; intros Hbad; cbn [app mapM].
  - rewrite Hbad. reflexivity.
  - destruct Ha as [b ->]. cbn [bind]. rewrite (IH Hbad). reflexivity.
Qed.

(** X14. With a list operator, the first element of the list that is not a
    string, integer, float or boolean decides the exception of the Weaviate
    emitter: [AssertionError] when it is [None], [ValueError]
    otherwise. *)
Theorem weaviate_untyped_element (convert_date : string -> option string)
  (cls : ComparisonOperation) (field_name : string)
  (good rest : list pyval) (bad : pyval) :
  list_operator cls = true ->
  forallb is_scalar_value good = true ->
  is_scalar_value bad = false ->
  convert_to_weaviate convert_date
    (Comparison cls field_name (PList (good ++ bad :: rest)))
  = Raise (match bad with
           | PNone => AssertionError
           | _ => ValueError
           end).
Proof.
  intros Hcls Hgood Hbad. rewrite convert_to_weaviate_comparison.
  assert (Hlist : forall outer operator,
             list_to_weaviate convert_date outer operator field_name
               (PList (good ++ bad :: rest))
             = Raise (match bad with
                      | PNone => AssertionError
                      | _ => ValueError
                      end)).
  { intros outer operator. unfold list_to_weaviate.
    cbn [isinstance_list py_assert bind].
    rewrite (@mapM_first_raise _ _ _ good rest bad
               (match bad with
                | PNone => AssertionError
                | _ => ValueError
                end)).
    - reflexivity.
    - apply Forall_forall. intros value Hvalue.
      pose proof (get_weaviate_datatype_element convert_date
                    (good ++ bad :: rest) value) as Hget.
      rewrite (proj1 (forallb_forall _ _) Hgood value Hvalue) in Hget.
      destruct Hget as [typed [-> _]]. eexists. reflexivity.
    - pose proof (get_weaviate_datatype_element convert_date
                    (good ++ bad :: rest) bad) as Hget.
      rewrite Hbad in Hget. rewrite Hget. reflexivity. }
  destruct cls; try discriminate Hcls; apply Hlist.
Qed.

Lemma weaviate_untyped_element_witness :
  convert_to_weaviate (fun _ => None)
    (Comparison InOperation "rating" (PList ([PInt 1; PInt 2] ++ PNone :: [PInt 4])))
  = Raise AssertionError.
Proof.
  apply (@weaviate_untyped_element (fun _ => None) InOperation "rating"
           [PInt 1; PInt 2] [PInt 4] PNone); reflexivity.
Defined.

(** ** Weaviate: the operators of the emitted filter *)

Lemma get_weaviate_datatype_scalar (convert_date : string -> option string)
  (comparison_value value : pyval) (typed : string * pyval) :
  _get_weaviate_datatype convert_date comparison_value value = Ok typed ->
  is_scalar_value (snd typed) = true.
Proof.
  unfold _get_weaviate_datatype.
  destruct value as [ | b | z | x | s | l | d ]; cbn;
    try (intros H; injection H as <-; reflexivity);
    try discriminate.
  - destruct comparison_value as [ | b | z | x | s | l | d ]; cbn;
      try (intros H; injection H as <-; reflexivity);
      try discriminate.
    destruct (convert_date s); intros H; injection H as <-; reflexivity.
  - destruct (convert_date s); intros H; injection H as <-; reflexivity.
Qed.

Lemma scalar_supported (v : pyval) :
  is_scalar_value v = true -> operators_supported v = true.
Proof.
  destruct v; try discriminate; reflexivity.
Qed.

Lemma weaviate_comparison_supported (f operator : string)
  (typed : string * pyval) :
  weaviate_operator operator = true ->
  is_scalar_value (snd typed) = true ->
  operators_supported (PDict (weaviate_comparison f operator typed)) = true.
Proof.
  intros Hop Htyped. unfold weaviate_comparison.
  cbn [operators_supported dict_get forallb snd fst].
  change ("path" =? "operator") with false.
  change ("operator" =? "operator") with true.
  cbn iota. rewrite Hop, (scalar_supported _ Htyped). reflexivity.
Qed.

Lemma weaviate_operands_supported (operator : string) (ds : list pydict) :
  weaviate_operator operator = true ->
  Forall (fun d => operators_supported (PDict d) = true) ds ->
  operators_supported (PDict (weaviate_operands operator ds)) = true.
Proof.
  intros Hop Hds. unfold weaviate_operands.
  cbn [operators_supported dict_get forallb snd fst].
  change ("operator" =? "operator") with true.
  cbn iota. rewrite Hop. cbn [andb].
  assert (Hall : forallb operators_supported (map PDict ds) = true).
  { induction Hds as [ | d ds Hd _ IH ]; cbn [map forallb].
    - reflexivity.
    - rewrite Hd, IH. reflexivity. }
  rewrite Hall. reflexivity.
Qed.

Lemma mapM_Ok_all (A B : Type) (f : A -> result B) (Q : B -> Prop)
  (l : list A) (bs : list B) :
  (forall a b, In a l -> f a = Ok b -> Q b) ->
  mapM f l = Ok bs -> Forall Q bs.
Proof.
  intros HQ Hmap. apply mapM_Ok_Forall2 in Hmap.
  induction Hmap as [ | a b l bs Hab _ IH ]; constructor.
  - apply (HQ a b); [ left; reflexivity | exact Hab ].
  - apply IH. intros a' b' Ha'. apply HQ. right. exact Ha'.
Qed.

Lemma comparison_to_weaviate_supported
  (convert_date : string -> option string) (cls : ComparisonOperation)
  (f : string) (v : pyval) (d : pydict) :
  comparison_to_weaviate convert_date cls f v = Ok d ->
  operators_supported (PDict d) = true.
Proof.
  assert (Hscalar : forall operator again,
             weaviate_operator operator = true ->
             scalar_to_weaviate convert_date operator again f v = Ok d ->
             operators_supported (PDict d) = true).
  { intros operator again Hop. unfold scalar_to_weaviate. intros H.
    apply bind_Ok_inv in H. destruct H as [typed [Hget H]].
    apply bind_Ok_inv in H. destruct H as [u [_ H]].
    injection H as <-.
    apply weaviate_comparison_supported; [ exact Hop | ].
    exact (get_weaviate_datatype_scalar _ _ _ Hget). }
  assert (Hlist : forall outer operator,
             weaviate_operator outer = true ->
             weaviate_operator operator = true ->
             list_to_weaviate convert_date outer operator f v = Ok d ->
             operators_supported (PDict d) = true).
  { intros outer operator Houter Hop. unfold list_to_weaviate. intros H.
    apply bind_Ok_inv in H. destruct H as [u [_ H]].
    destruct v as [ | b | z | x | s | values | items ]; try discriminate H.
    apply bind_Ok_inv in H. destruct H as [operands [Hmap H]].
    injection H as <-.
    apply weaviate_operands_supported; [ exact Houter | ].
    revert Hmap. apply mapM_Ok_all.
    intros value operand _ Hvalue.
    apply bind_Ok_inv in Hvalue. destruct Hvalue as [typed [Hget Hvalue]].
    injection Hvalue as <-.
    apply weaviate_comparison_supported; [ exact Hop | ].
    exact (get_weaviate_datatype_scalar _ _ _ Hget). }
  destruct cls; cbn [comparison_to_weaviate];
    first [ apply Hscalar; reflexivity
          | apply Hlist; reflexivity ].
Qed.

Lemma weaviate_calls_supported (convert_date : string -> option string) :
  forall (n : nat) (c : clause) (d : pydict),
    weaviate_calls convert_date n c = Ok d ->
    operators_supported (PDict d) = true.
Proof.
  induction n as [ | n IHn ]; intros c d H; [ discriminate H | ].
  destruct c as [ cls cs | cls f v ].
  - destruct cls.
    + rewrite weaviate_calls_not in H.
      apply bind_Ok_inv in H. destruct H as [ds [Hmap H]].
      assert (Hds : Forall (fun d => operators_supported (PDict d) = true) ds).
      { revert Hmap. apply mapM_Ok_all.
        intros x dx _ Hx. exact (IHn _ _ Hx). }
      destruct (Nat.ltb 1 (List.length ds)).
      * injection H as <-.
        apply weaviate_operands_supported; [ reflexivity | exact Hds ].
      * destruct ds as [ | first ds ]; [ discriminate H | ].
        injection H as <-. inversion Hds; assumption.
    + rewrite (proj1 (weaviate_calls_and_or _ _ _)) in H.
      apply bind_Ok_inv in H. destruct H as [ds [Hmap H]].
      injection H as <-.
      apply weaviate_operands_supported; [ reflexivity | ].
      revert Hmap. apply mapM_Ok_all.
      intros x dx _ Hx. exact (IHn _ _ Hx).
    + rewrite (proj2 (weaviate_calls_and_or _ _ _)) in H.
      apply bind_Ok_inv in H. destruct H as [ds [Hmap H]].
      injection H as <-.
      apply weaviate_operands_supported; [ reflexivity | ].
      revert Hmap. apply mapM_Ok_all.
      intros x dx _ Hx. exact (IHn _ _ Hx).
  - exact (comparison_to_weaviate_supported _ _ _ _ H).
Qed.

(** X15. Every operator of a filter that the Weaviate emitter returns, at
    any depth, is one of And, Or, Equal, NotEqual, GreaterThan,
    GreaterThanEqual, LessThan and LessThanEqual: no Not reaches Weaviate,
    whatever the clause. *)
Theorem weaviate_operators (convert_date : string -> option string)
  (c : clause) (d : pydict) :
  convert_to_weaviate convert_date c = Ok d ->
  operators_supported (PDict d) = true.
Proof.
  unfold convert_to_weaviate. apply weaviate_calls_supported.
Qed.

Lemma weaviate_operators_witness :
  operators_supported
    (PDict (weaviate_operands "Or"
              [weaviate_comparison "a" "NotEqual" ("valueInt", PInt 1);
               weaviate_operands "And"
                 [weaviate_comparison "b" "NotEqual" ("valueInt", PInt 2);
                  weaviate_comparison "b" "NotEqual" ("valueInt", PInt 3)]]))
  = true.
Proof.
  apply (@weaviate_operators (fun _ => None)
           (Logical NotOperation
              [Logical NotOperation
                 [Comparison EqOperation "a" (PInt 1);
                  Comparison InOperation "b" (PList [PInt 2; PInt 3])]])).
  reflexivity.
Defined.

(** ** Parsing: a class and the base class *)

(** X16. [parse] called on one of the three logical classes returns an
    instance of that class, whatever the number of conditions, and
    [LogicalFilterClause.parse] on the same term returns the same
    conditions: alone when there is exactly one, under an And
    otherwise. *)
Theorem parse_of_class (cls : LogicalFilterClause) (filter_term : pyval)
  (T : clause) :
  parse_cls (Some cls) filter_term = Ok T ->
  exists conditions,
    T = Logical cls conditions
    /\ parse filter_term
       = Ok (match conditions with
             | [c] => c
             | _ => Logical AndOperation conditions
             end).
Proof.
  unfold parse. intros H.
  destruct filter_term as [ | b | z | x | s | l | item ]; cbn [parse_cls] in *;
    apply bind_Ok_inv in H; destruct H as [cs [Hcs H]];
    injection H as <-; exists cs; rewrite Hcs;
    (split; reflexivity).
Qed.

Lemma parse_of_class_witness :
  exists conditions,
    Logical OrOperation [Comparison EqOperation "type" (PStr "article")]
    = Logical OrOperation conditions
    /\ parse (PDict [("type", PStr "article")])
       = Ok (match conditions with
             | [c] => c
             | _ => Logical AndOperation conditions
             end).
Proof.
  apply (@parse_of_class OrOperation (PDict [("type", PStr "article")])).
  reflexivity.
Defined.
